(** * bq-migrate: a shallow embedding of the BigQuery schema-migration class

    The development follows class [BQMigration], the module that starts at
    line 12 of [src/example/bqMigrate.js], after the example script that
    instantiates it. The warehouse, the file system and the module loader
    are an explicit [World]; every asynchronous method is a function in a
    state-and-exception monad over that world, one [await] after the other.

    Conventions of the model: datetimes are whole seconds; a query job has
    finished when its metadata is read; strings are sequences of bytes, so
    the default order of [Array.prototype.sort] is the byte-wise order; a
    number of the runtime is a whole double, written as the integer it is. *)

From Stdlib Require Import ZArith Lia Ascii String List.
From stdpp Require Import base tactics option list gmap strings sorting pretty.

Open Scope string_scope.
Open Scope list_scope.
Open Scope Z_scope.

(* ===================================================================== *)
(** ** Persisted data *)
(* ===================================================================== *)

(** A row of the migration table: [name STRING, batch INT64,
    migration_time DATETIME]. Datetimes are whole seconds. *)
Record MigrationRecord := mkMigration {
  mr_name : string;
  mr_batch : Z;
  mr_time : Z
}.

(** A row of the lock table: [is_locked BOOL, locked_at DATETIME]. *)
Record LockRecord := mkLock {
  is_locked : bool;
  locked_at : Z
}.

Definition Schema : Type := list (string * string).

Definition migrationSchema : Schema :=
  [("name", "STRING"); ("batch", "INT64"); ("migration_time", "DATETIME")].

Definition migrationLockSchema : Schema :=
  [("is_locked", "BOOL"); ("locked_at", "DATETIME")].

(** A table of the dataset, by the shape of its schema. *)
Inductive Table :=
| LedgerTable (rows : list MigrationRecord)
| LockTable (rows : list LockRecord)
| UserTable (schema : Schema).

#[global] Instance MigrationRecord_eq_dec : EqDecision MigrationRecord.
Proof. solve_decision. Defined.
#[global] Instance LockRecord_eq_dec : EqDecision LockRecord.
Proof. solve_decision. Defined.
#[global] Instance Table_eq_dec : EqDecision Table.
Proof. solve_decision. Defined.

Definition table_of_schema (s : Schema) : Table :=
  if decide (s = migrationSchema) then LedgerTable []
  else if decide (s = migrationLockSchema) then LockTable []
  else UserTable s.

(** Tables are addressed by dataset id and table name. *)
Definition TableId : Type := string * string.

Abbreviation Tables := (gmap (string * string) Table).

(* ===================================================================== *)
(** ** Statements sent to the warehouse *)
(* ===================================================================== *)

(** The SQL texts built by the class, one constructor per template. The
    holes of a template are filled by pasting: a number as its decimal text,
    a name between single quotes. A constructor stands for the text whose
    pasted parts read back as the values it carries; [SqlText] is any other
    text built from the template that names table [t]. *)
Inductive Stmt :=
| InsertLockRow (t : TableId) (tz : string)
    (* INSERT INTO t (is_locked, locked_at) VALUES (FALSE, CURRENT_DATETIME(tz)) *)
| UpdateLock (t : TableId) (tz : string) (expiry : Z)
    (* UPDATE t SET is_locked = TRUE, locked_at = CURRENT_DATETIME(tz)
       WHERE is_locked = FALSE
          OR DATETIME_DIFF(CURRENT_DATETIME(tz), locked_at, SECOND) >= expiry *)
| UpdateUnlock (t : TableId)
    (* UPDATE t SET is_locked = FALSE WHERE is_locked = TRUE *)
| SelectNames (t : TableId) (batch : option Z)
    (* SELECT name FROM t [WHERE batch = b] *)
| SelectMaxBatch (t : TableId)
    (* SELECT MAX(batch) as max_batch FROM t *)
| InsertLedger (t : TableId) (values : list (string * Z)) (tz : string)
    (* INSERT INTO t (name, batch, migration_time)
       VALUES ('n', b, CURRENT_DATETIME(tz)), ... *)
| DeleteLedger (t : TableId) (names : list string) (batch : Z)
    (* DELETE FROM t WHERE name IN ('n', ...) AND batch = b *)
| SqlText (t : TableId) (text : string).

(** What a statement gives back: rows of names, the single [max_batch]
    cell (NULL on an empty table), or the DML affected-row count. *)
Inductive QResult :=
| RNames (names : list string)
| RMax (max_batch : option Z)
| RDml (affected : Z).

(** Calls on the client library. *)
Inductive ApiCall :=
| CExists (t : TableId)
| CCreateTable (t : TableId) (schema : Schema)
| CDeleteTable (t : TableId)
| CQuery (s : Stmt)
| CQueryJob (s : Stmt)
| CGetMetadata (s : Stmt).

(* ===================================================================== *)
(** ** Errors, outcomes, events *)
(* ===================================================================== *)

Inductive JsError :=
| ReferenceError (ident : string)   (* ident is not defined *)
| TypeError (msg : string)
| Error (msg : string)              (* new Error(msg) *)
| ApiError (c : ApiCall)            (* the client call rejected *)
| FsError (dir : string)            (* fs.promises.readdir rejected *)
| ModuleNotFound (path : string)    (* require(path) threw *)
| ScriptError (msg : string).       (* thrown by a migration script *)

Inductive Outcome (A : Type) :=
| Ok (a : A)
| Throw (e : JsError).
Arguments Ok {A} a.
Arguments Throw {A} e.

Inductive Event :=
| EvCall (c : ApiCall)
| EvReaddir (dir : string)
| EvRequire (path : string)
| EvUp (file : string)
| EvDown (file : string)
| EvInfo (msg : string)                    (* console.info *)
| EvError (msg : string) (e : JsError).    (* console.error *)

(* ===================================================================== *)
(** ** The world *)
(* ===================================================================== *)

(** The BigQuery client handle handed to the constructor. *)
Inductive Client := BigQueryClient.

(** A migration module: [exports.up] and [exports.down], each given the
    client and the dataset id. A script acts on the tables of the
    warehouse and either completes or throws. *)
Record Script := mkScript {
  up : Client -> string -> Tables -> Outcome unit * Tables;
  down : Client -> string -> Tables -> Outcome unit * Tables
}.

Record World := mkWorld {
  tables : Tables;                     (* the warehouse *)
  dirs : gmap string (list string);    (* readable directories and their entries *)
  modules : gmap string Script;        (* what require(path) loads *)
  clock : Z;                           (* UTC seconds *)
  tz_offset : string -> Z;             (* offset of a tz database zone *)
  faults : list bool;                  (* does the n-th coming client call reject? *)
  trace : list Event;                  (* what has happened so far, oldest first *)
  other_sql : string -> Tables -> option (QResult * Tables)
                                       (* what the warehouse makes of any other text *)
}.

Definition with_tables (t : Tables) (w : World) : World :=
  mkWorld t (dirs w) (modules w) (clock w) (tz_offset w) (faults w) (trace w) (other_sql w).
Definition with_faults (f : list bool) (w : World) : World :=
  mkWorld (tables w) (dirs w) (modules w) (clock w) (tz_offset w) f (trace w) (other_sql w).
Definition with_trace (tr : list Event) (w : World) : World :=
  mkWorld (tables w) (dirs w) (modules w) (clock w) (tz_offset w) (faults w) tr (other_sql w).
Definition with_clock (c : Z) (w : World) : World :=
  mkWorld (tables w) (dirs w) (modules w) c (tz_offset w) (faults w) (trace w) (other_sql w).

(* ===================================================================== *)
(** ** The monad of asynchronous methods *)
(* ===================================================================== *)

Definition M (A : Type) : Type := World -> Outcome A * World.

Definition ret {A} (a : A) : M A := fun w => (Ok a, w).
Definition throw {A} (e : JsError) : M A := fun w => (Throw e, w).
Definition bind {A B} (m : M A) (k : A -> M B) : M B := fun w =>
  match m w with
  | (Ok a, w1) => k a w1
  | (Throw e, w1) => (Throw e, w1)
  end.

Declare Scope js_scope.
Delimit Scope js_scope with js.
Notation "x <- c1 ;; c2" := (bind c1 (fun x => c2))
  (at level 100, c1 at next level, c2 at level 200, right associativity) : js_scope.
Notation "c1 ;;; c2" := (bind c1 (fun _ => c2))
  (at level 100, c2 at level 200, right associativity) : js_scope.
Open Scope js_scope.

(** [try { body } catch (error) { handler } finally { fin }]: the handler
    runs on a throw of the body; the [finally] block runs in every case, and
    a throw of its own replaces the completion reached before it. *)
Definition try_catch_finally {A} (body : M A) (handler : JsError -> M A)
    (fin : M unit) : M A := fun w =>
  let '(r1, w1) := body w in
  let '(r2, w2) := match r1 with
                   | Ok a => (Ok a, w1)
                   | Throw e => handler e w1
                   end in
  let '(r3, w3) := fin w2 in
  match r3 with
  | Ok _ => (r2, w3)
  | Throw e => (Throw e, w3)
  end.

Definition emit (e : Event) : M unit := fun w =>
  (Ok tt, with_trace (trace w ++ [e]) w).

Definition console_info (msg : string) : M unit := emit (EvInfo msg).
Definition console_error (msg : string) (e : JsError) : M unit := emit (EvError msg e).

(* ===================================================================== *)
(** ** Identifiers of the module *)
(* ===================================================================== *)

Inductive Value :=
| VModule (name : string)
| VClass (name : string)
| VClient (c : Client).

(** The bindings visible in the module of the class: its two [require]s and
    the class itself. Nothing else is declared there; the constant
    [bigquery] of the example script belongs to that script's module, and
    Node's global object has no property of that name. *)
Definition module_scope : list (string * Value) :=
  [("fs", VModule "fs"); ("path", VModule "path"); ("BQMigration", VClass "BQMigration")].

Fixpoint lookup_ident (x : string) (sc : list (string * Value)) : option Value :=
  match sc with
  | [] => None
  | (y, v) :: sc' => if String.eqb x y then Some v else lookup_ident x sc'
  end.

(** Evaluating a bare identifier that is then used as the client. *)
Definition resolve_client (x : string) : M Client :=
  match lookup_ident x module_scope with
  | None => throw (ReferenceError x)
  | Some (VClient c) => ret c
  | Some _ => throw (TypeError (x +:+ ".dataset is not a function"))
  end.

(* ===================================================================== *)
(** ** The warehouse: what the statements do *)
(* ===================================================================== *)

(** [CURRENT_DATETIME(tz)]: the civil time of zone [tz]. *)
Definition CURRENT_DATETIME (tz : string) (w : World) : Z := clock w + tz_offset w tz.

(** [DATETIME_DIFF(a, b, SECOND)]. *)
Definition DATETIME_DIFF (a b : Z) : Z := a - b.

(** The WHERE clause of the lock update. *)
Definition lock_where (now expiry : Z) (r : LockRecord) : bool :=
  negb (is_locked r) || (expiry <=? DATETIME_DIFF now (locked_at r)).

Definition lock_set (now : Z) (r : LockRecord) : LockRecord := mkLock true now.

Definition unlock_where (r : LockRecord) : bool := is_locked r.

Definition unlock_set (r : LockRecord) : LockRecord := mkLock false (locked_at r).

(** [UPDATE ... SET ... WHERE ...] over the rows of one table. *)
Definition sql_update {R} (where_ : R -> bool) (set_ : R -> R) (rows : list R) : list R :=
  map (fun r => if where_ r then set_ r else r) rows.

Definition sql_count {R} (where_ : R -> bool) (rows : list R) : Z :=
  Z.of_nat (length (List.filter where_ rows)).

Definition name_in (names : list string) (n : string) : bool :=
  existsb (String.eqb n) names.

Definition batch_where (batch : option Z) (r : MigrationRecord) : bool :=
  match batch with
  | None => true
  | Some b => mr_batch r =? b
  end.

Definition delete_where (names : list string) (batch : Z) (r : MigrationRecord) : bool :=
  name_in names (mr_name r) && (mr_batch r =? batch).

Definition sql_max (l : list Z) : option Z :=
  match l with
  | [] => None
  | x :: l' => Some (fold_left Z.max l' x)
  end.

Definition stmt_table (s : Stmt) : TableId :=
  match s with
  | InsertLockRow t _ | UpdateLock t _ _ | UpdateUnlock t | SelectNames t _
  | SelectMaxBatch t | InsertLedger t _ _ | DeleteLedger t _ _ | SqlText t _ => t
  end.

(** One statement against the warehouse: its result and the tables after
    it, or [None] when the warehouse refuses it (table missing, or columns
    that the table does not have). A text that is none of the statements
    is read by the warehouse of the world. *)
Definition exec_stmt (s : Stmt) (w : World) : option (QResult * Tables) :=
  match s, tables w !! stmt_table s with
  | InsertLockRow t tz, Some (LockTable rows) =>
      Some (RDml 1,
            <[t := LockTable (rows ++ [mkLock false (CURRENT_DATETIME tz w)])]> (tables w))
  | UpdateLock t tz expiry, Some (LockTable rows) =>
      let now := CURRENT_DATETIME tz w in
      Some (RDml (sql_count (lock_where now expiry) rows),
            <[t := LockTable (sql_update (lock_where now expiry) (lock_set now) rows)]> (tables w))
  | UpdateUnlock t, Some (LockTable rows) =>
      Some (RDml (sql_count unlock_where rows),
            <[t := LockTable (sql_update unlock_where unlock_set rows)]> (tables w))
  | SelectNames t batch, Some (LedgerTable rows) =>
      Some (RNames (map mr_name (List.filter (batch_where batch) rows)), tables w)
  | SelectMaxBatch t, Some (LedgerTable rows) =>
      Some (RMax (sql_max (map mr_batch rows)), tables w)
  | InsertLedger t values tz, Some (LedgerTable rows) =>
      let now := CURRENT_DATETIME tz w in
      Some (RDml (Z.of_nat (length values)),
            <[t := LedgerTable (rows ++ map (fun nb => mkMigration (fst nb) (snd nb) now) values)]>
              (tables w))
  | DeleteLedger t names batch, Some (LedgerTable rows) =>
      Some (RDml (sql_count (delete_where names batch) rows),
            <[t := LedgerTable (List.filter (fun r => negb (delete_where names batch r)) rows)]>
              (tables w))
  | SqlText t text, _ => other_sql w text (tables w)
  | _, _ => None
  end.

(* ===================================================================== *)
(** ** The client library *)
(* ===================================================================== *)

(** Every call on the client is recorded, and rejects when the world says
    this call is a faulty one. *)
Definition api {A} (c : ApiCall) (body : M A) : M A := fun w =>
  let w1 := with_trace (trace w ++ [EvCall c]) w in
  match faults w1 with
  | true :: fs => (Throw (ApiError c), with_faults fs w1)
  | false :: fs => body (with_faults fs w1)
  | [] => body w1
  end.

(** [client.dataset(ds).table(t).exists()] *)
Definition table_exists (c : Client) (ds t : string) : M bool :=
  api (CExists (ds, t)) (fun w => (Ok (bool_decide (is_Some (tables w !! (ds, t)))), w)).

(** [client.dataset(ds).createTable(t, { schema })] *)
Definition createTable (c : Client) (ds t : string) (schema : Schema) : M unit :=
  api (CCreateTable (ds, t) schema) (fun w =>
    match tables w !! (ds, t) with
    | Some _ => (Throw (ApiError (CCreateTable (ds, t) schema)), w)
    | None => (Ok tt, with_tables (<[(ds, t) := table_of_schema schema]> (tables w)) w)
    end).

(** [client.query({ query })] *)
Definition bq_query (c : Client) (s : Stmt) : M QResult :=
  api (CQuery s) (fun w =>
    match exec_stmt s w with
    | Some (r, t) => (Ok r, with_tables t w)
    | None => (Throw (ApiError (CQuery s)), w)
    end).

(** A query job; its statistics are those of the finished statement. *)
Record Job := mkJob {
  job_stmt : Stmt;
  numDmlAffectedRows : Z
}.

Definition affected_of (r : QResult) : Z :=
  match r with
  | RDml n => n
  | _ => 0
  end.

(** [client.createQueryJob({ query, params })] *)
Definition createQueryJob (c : Client) (s : Stmt) : M Job :=
  api (CQueryJob s) (fun w =>
    match exec_stmt s w with
    | Some (r, t) => (Ok (mkJob s (affected_of r)), with_tables t w)
    | None => (Throw (ApiError (CQueryJob s)), w)
    end).

(** [job.getMetadata()], read for [statistics.numDmlAffectedRows]. *)
Definition getMetadata (j : Job) : M Z :=
  api (CGetMetadata (job_stmt j)) (ret (numDmlAffectedRows j)).

(* ===================================================================== *)
(** ** File system and module loader *)
(* ===================================================================== *)

(** [fs.promises.readdir(dir)] *)
Definition readdir (dir : string) : M (list string) := fun w =>
  let w1 := with_trace (trace w ++ [EvReaddir dir]) w in
  match dirs w !! dir with
  | Some entries => (Ok entries, w1)
  | None => (Throw (FsError dir), w1)
  end.

(** [require(path)] *)
Definition require (path : string) : M Script := fun w =>
  let w1 := with_trace (trace w ++ [EvRequire path]) w in
  match modules w !! path with
  | Some m => (Ok m, w1)
  | None => (Throw (ModuleNotFound path), w1)
  end.

(** [await migrationFile.up(client, datasetId)] and its [down] twin. *)
Definition call_up (file : string) (m : Script) (c : Client) (ds : string) : M unit := fun w =>
  let w1 := with_trace (trace w ++ [EvUp file]) w in
  let '(r, t) := up m c ds (tables w) in
  (r, with_tables t w1).

Definition call_down (file : string) (m : Script) (c : Client) (ds : string) : M unit := fun w =>
  let w1 := with_trace (trace w ++ [EvDown file]) w in
  let '(r, t) := down m c ds (tables w) in
  (r, with_tables t w1).

(* ===================================================================== *)
(** ** [path] and string helpers of the runtime *)
(* ===================================================================== *)

(** Index of the last occurrence of a character. *)
Fixpoint last_index_of (c : ascii) (s : string) : option nat :=
  match s with
  | EmptyString => None
  | String a s' =>
      match last_index_of c s' with
      | Some i => Some (S i)
      | None => if Ascii.eqb a c then Some O else None
      end
  end.

Definition basename (p : string) : string :=
  match last_index_of "/" p with
  | Some i => substring (S i) (String.length p - S i) p
  | None => p
  end.

(** [path.parse(file).name]: the base name without its extension; the
    extension starts at the last dot, unless that dot opens the base name. *)
Definition path_parse_name (file : string) : string :=
  let base := basename file in
  match last_index_of "." base with
  | Some (S i) => substring 0 (S i) base
  | _ => base
  end.

(** [path.join(dir, file)] for a directory and an entry of it. *)
Definition path_join (dir file : string) : string := dir +:+ "/" +:+ file.

(** [s.endsWith(suffix)] *)
Fixpoint endsWith (s suffix : string) : bool :=
  if String.eqb s suffix then true
  else match s with
       | EmptyString => false
       | String _ s' => endsWith s' suffix
       end.

(** The class [\d] of a regular expression without the [u] flag. *)
Definition is_digit (c : ascii) : bool :=
  (48 <=? nat_of_ascii c)%nat && (nat_of_ascii c <=? 57)%nat.

(** [/^\d{3}_/.test(file)] *)
Definition test_3digits_underscore (file : string) : bool :=
  match file with
  | String a (String b (String c (String d _))) =>
      is_digit a && is_digit b && is_digit c && Ascii.eqb d "_"
  | _ => false
  end.

(** [array.includes(x)] on an array of strings. *)
Definition includes (l : list string) (x : string) : bool := existsb (String.eqb x) l.

(** The nearest multiple of [2 ^ sh]; on a tie, the one with the even
    quotient. *)
Definition round_to_even (a sh : Z) : Z :=
  let q := a / 2 ^ sh in
  let r := a mod 2 ^ sh in
  let half := 2 ^ (sh - 1) in
  if r <? half then q * 2 ^ sh
  else if half <? r then (q + 1) * 2 ^ sh
  else if Z.even q then q * 2 ^ sh else (q + 1) * 2 ^ sh.

(** [Number(z)] for an integer [z], as for the cell of an INT64 column: the
    nearest double, which keeps 53 significant bits (an INT64 is far below
    the largest double). *)
Definition to_double (z : Z) : Z :=
  let a := Z.abs z in
  let e := Z.log2 a in
  if e <? 53 then z else Z.sgn z * round_to_even a (e - 52).

(** The digits of [`${a}`] for a whole double [a >= 0]: the fewest
    significant digits that read back as [a], zeros after them; of two such
    numbers the nearer one, and the even one on a tie. [k] counts the zeros
    still to be tried. *)
Fixpoint shortest_digits (k : nat) (a : Z) : Z :=
  match k with
  | O => a
  | S k' =>
      let step := 10 ^ Z.of_nat k in
      let lo := a / step * step in
      let hi := lo + step in
      match to_double lo =? a, to_double hi =? a with
      | true, true =>
          if a - lo <? hi - a then lo
          else if hi - a <? a - lo then hi
          else if Z.even (lo / step) then lo else hi
      | true, false => lo
      | false, true => hi
      | false, false => shortest_digits k' a
      end
  end.

(** The integer that the text [`${d}`] of a whole double [d] denotes; below
    [10 ^ 21], which covers every INT64, the text is that integer in decimal
    digits. *)
Definition number_text (d : Z) : Z :=
  Z.sgn d * shortest_digits (Z.to_nat (Z.log2 (Z.abs d))) (Z.abs d).

(** [Number(batchRows[0].max_batch) || 0]: [NULL] gives 0. *)
Definition number_or_zero (r : QResult) : Z :=
  match r with
  | RMax (Some b) => to_double b
  | _ => 0
  end.

(** A character that stands for itself between the single quotes of a
    string literal: not the quote, not the backslash, not a line break. *)
Definition plain_char (c : ascii) : bool :=
  negb (Ascii.eqb c "'" || Ascii.eqb c "\" || Ascii.eqb c "010" || Ascii.eqb c "013").

Fixpoint plain_literal (s : string) : bool :=
  match s with
  | EmptyString => true
  | String c s' => plain_char c && plain_literal s'
  end.

(** [`'${name}'`] and [names.map(...).join(", ")] *)
Definition quoted (name : string) : string := "'" +:+ name +:+ "'".

Definition join (sep : string) (l : list string) : string := String.concat sep l.

Definition table_ref (t : TableId) : string := "`" +:+ fst t +:+ "." +:+ snd t +:+ "`".

Definition line_break : string := String "010" EmptyString.

(* ===================================================================== *)
(** ** The class *)
(* ===================================================================== *)

(** The object passed to [new BQMigration(config)]. *)
Record RawConfig := mkRawConfig {
  config_bigquery : Client;
  config_datasetId : string;
  config_migrationTableName : option string;
  config_migrationLockTableName : option string;
  config_migrationsDir : option string;
  config_migrationLockExpirationTime : option Z;
  config_timezone : option string
}.

(** The fields of an instance. *)
Record BQMigration := mkBQMigration {
  bigquery : Client;
  datasetId : string;
  migrationTableName : string;
  migrationLockTableName : string;
  migrationsDir : string;
  migrationLockExpirationTime : Z;
  timezone : string
}.

(** [x || d] for a string and for a number: the empty string and zero are
    falsy, like [undefined]. *)
Definition or_string (x : option string) (d : string) : string :=
  match x with
  | Some EmptyString | None => d
  | Some s => s
  end.

Definition or_number (x : option Z) (d : Z) : Z :=
  match x with
  | Some 0 | None => d
  | Some n => n
  end.

(** [constructor(config)], in a module that lives in directory [dirname]. *)
Definition constructor (dirname : string) (config : RawConfig) : BQMigration :=
  {| bigquery := config_bigquery config;
     datasetId := config_datasetId config;
     migrationTableName := or_string (config_migrationTableName config) "schema_migrations";
     migrationLockTableName :=
       or_string (config_migrationLockTableName config) "schema_migrations_lock";
     migrationsDir := or_string (config_migrationsDir config) (path_join dirname "migrations");
     migrationLockExpirationTime := or_number (config_migrationLockExpirationTime config) 30;
     timezone := or_string (config_timezone config) "Etc/UTC" |}.

Definition ledger_id (this : BQMigration) : TableId := (datasetId this, migrationTableName this).
Definition lock_id (this : BQMigration) : TableId := (datasetId this, migrationLockTableName this).

Definition createMigrationTable (this : BQMigration) : M unit :=
  migrationsTableExists <-
    table_exists (bigquery this) (datasetId this) (migrationTableName this) ;;
  if negb migrationsTableExists then
    createTable (bigquery this) (datasetId this) (migrationTableName this) migrationSchema ;;;
    console_info ("Created " +:+ migrationTableName this +:+ " table.")
  else ret tt.

Definition createMigrationLockTable (this : BQMigration) : M unit :=
  bq <- resolve_client "bigquery" ;;
  lockTableExists <- table_exists bq (datasetId this) (migrationLockTableName this) ;;
  if negb lockTableExists then
    createTable (bigquery this) (datasetId this) (migrationLockTableName this)
      migrationLockSchema ;;;
    bq' <- resolve_client "bigquery" ;;
    bq_query bq' (InsertLockRow (lock_id this) (timezone this)) ;;;
    console_info ("Created " +:+ migrationLockTableName this +:+ " table.")
  else ret tt.

Definition lock_stmt (this : BQMigration) : Stmt :=
  UpdateLock (lock_id this) (timezone this) (migrationLockExpirationTime this).

Definition lock_failed (this : BQMigration) : JsError :=
  Error ("Failed to lock " +:+ migrationLockTableName this +:+ " table").

Definition unlock_failed (this : BQMigration) : JsError :=
  Error ("Failed to unlock " +:+ migrationLockTableName this +:+ " table").

Definition lockMigration (this : BQMigration) : M unit :=
  job <- createQueryJob (bigquery this) (lock_stmt this) ;;
  affectedRows <- getMetadata job ;;
  if affectedRows =? 0 then throw (lock_failed this)
  else console_info "Received migration lock.".

Definition unlockMigration (this : BQMigration) : M unit :=
  job <- createQueryJob (bigquery this) (UpdateUnlock (lock_id this)) ;;
  affectedRows <- getMetadata job ;;
  if affectedRows =? 0 then throw (unlock_failed this)
  else console_info "Removed migration lock.".

Definition valid_migration_file (file : string) : bool :=
  test_3digits_underscore file && (endsWith file ".js" || endsWith file ".ts").

Definition getMigrationFiles (this : BQMigration) : M (list string) :=
  migrationFiles <- readdir (migrationsDir this) ;;
  let validMigrationFiles := List.filter valid_migration_file migrationFiles in
  let sortedMigrationFiles := merge_sort String.le validMigrationFiles in
  ret sortedMigrationFiles.

(** [batch ? ` WHERE batch = ${batch}` : ""]: [null] and [0] add no clause;
    any other number is pasted as its text. *)
Definition batch_clause (batch : option Z) : option Z :=
  match batch with
  | None => None
  | Some b => let d := to_double b in if d =? 0 then None else Some (number_text d)
  end.

Definition getAppliedMigrations (this : BQMigration) (batch : option Z) : M (list string) :=
  rows <- bq_query (bigquery this) (SelectNames (ledger_id this) (batch_clause batch)) ;;
  match rows with
  | RNames names => ret names
  | _ => throw (TypeError "rows.map is not a function")
  end.

(** The [for ... of] loop of [runMigrations]; [ranMigrations] is the array
    the loop pushes to. *)
Fixpoint run_loop (this : BQMigration) (appliedMigrations migrationFiles : list string)
    (ranMigrations : list string) : M (list string) :=
  match migrationFiles with
  | [] => ret ranMigrations
  | file :: rest =>
      let fileName := path_parse_name file in
      let filePath := path_join (migrationsDir this) file in
      if negb (includes appliedMigrations fileName) then
        migrationFile <- require filePath ;;
        call_up file migrationFile (bigquery this) (datasetId this) ;;;
        run_loop this appliedMigrations rest (ranMigrations ++ [fileName])
      else run_loop this appliedMigrations rest ranMigrations
  end.

(** The text of lines 296-305, names and batch pasted in. *)
Definition insert_text (this : BQMigration) (ranMigrations : list string) (batch : Z)
    : string :=
  "INSERT INTO " +:+ table_ref (ledger_id this) +:+ " (name, batch ,migration_time)"
  +:+ line_break +:+ "                    VALUES "
  +:+ join ", "
        (map (fun fileName =>
                "(" +:+ quoted fileName +:+ ", " +:+ pretty (number_text batch)
                +:+ " , CURRENT_DATETIME('" +:+ timezone this +:+ "'))")
           ranMigrations).

Definition insert_stmt (this : BQMigration) (ranMigrations : list string) (batch : Z) : Stmt :=
  if forallb plain_literal ranMigrations then
    InsertLedger (ledger_id this)
      (map (fun fileName => (fileName, number_text batch)) ranMigrations) (timezone this)
  else SqlText (ledger_id this) (insert_text this ranMigrations batch).

(** Lines 284-308: the bookkeeping after the loop. *)
Definition run_record (this : BQMigration) (ranMigrations : list string) : M unit :=
  if (length ranMigrations =? 0)%nat then console_info "No migrations to run."
  else
    bq <- resolve_client "bigquery" ;;
    batchRows <- bq_query bq (SelectMaxBatch (ledger_id this)) ;;
    let currentBatch := number_or_zero batchRows in
    bq_query (bigquery this)
      (insert_stmt this ranMigrations (to_double (currentBatch + 1))) ;;;
    console_info ("Ran " +:+ pretty (length ranMigrations) +:+ " migrations.").

(** Steps 2 to 4 of [runMigrations]: everything of the [try] block from the
    lock on. *)
Definition run_locked (this : BQMigration) : M unit :=
  lockMigration this ;;;
  appliedMigrations <- getAppliedMigrations this None ;;
  migrationFiles <- getMigrationFiles this ;;
  ranMigrations <- run_loop this appliedMigrations migrationFiles [] ;;
  run_record this ranMigrations.

Definition run_try (this : BQMigration) : M unit :=
  createMigrationTable this ;;;
  createMigrationLockTable this ;;;
  run_locked this.

Definition runMigrations (this : BQMigration) : M unit :=
  try_catch_finally
    (run_try this)
    (fun error => console_error "Error running migrations:" error)
    (unlockMigration this).

(** The [for ... of] loop of [rollbackMigrations]. *)
Fixpoint rollback_loop (this : BQMigration) (latestBatchMigrations migrationFiles : list string)
    (rolledBackMigrations : list string) : M (list string) :=
  match migrationFiles with
  | [] => ret rolledBackMigrations
  | file :: rest =>
      let fileName := path_parse_name file in
      let filePath := path_join (migrationsDir this) file in
      if includes latestBatchMigrations fileName then
        migrationFile <- require filePath ;;
        call_down file migrationFile (bigquery this) (datasetId this) ;;;
        rollback_loop this latestBatchMigrations rest (rolledBackMigrations ++ [fileName])
      else rollback_loop this latestBatchMigrations rest rolledBackMigrations
  end.

(** The text of lines 366-371, names and batch pasted in. *)
Definition delete_text (this : BQMigration) (rolledBackMigrations : list string) (batch : Z)
    : string :=
  "DELETE FROM " +:+ table_ref (ledger_id this)
  +:+ line_break +:+ "                    WHERE name IN ("
  +:+ join ", " (map quoted rolledBackMigrations)
  +:+ ") AND batch = " +:+ pretty (number_text batch) +:+ ";".

Definition delete_stmt (this : BQMigration) (rolledBackMigrations : list string) (batch : Z)
    : Stmt :=
  if forallb plain_literal rolledBackMigrations then
    DeleteLedger (ledger_id this) rolledBackMigrations (number_text batch)
  else SqlText (ledger_id this) (delete_text this rolledBackMigrations batch).

Definition rollback_record (this : BQMigration) (currentBatch : Z)
    (rolledBackMigrations : list string) : M unit :=
  if (length rolledBackMigrations =? 0)%nat then console_info "Nothing to rollback."
  else
    bq_query (bigquery this) (delete_stmt this rolledBackMigrations currentBatch) ;;;
    console_info ("Rolled back " +:+ pretty (length rolledBackMigrations) +:+ " migrations.").

Definition rollback_try (this : BQMigration) : M unit :=
  lockMigration this ;;;
  migrationFiles <- getMigrationFiles this ;;
  batchRows <- bq_query (bigquery this) (SelectMaxBatch (ledger_id this)) ;;
  let currentBatch := number_or_zero batchRows in
  latestBatchMigrations <- getAppliedMigrations this (Some currentBatch) ;;
  rolledBackMigrations <- rollback_loop this latestBatchMigrations migrationFiles [] ;;
  rollback_record this currentBatch rolledBackMigrations.

Definition rollbackMigrations (this : BQMigration) : M unit :=
  try_catch_finally
    (rollback_try this)
    (fun error => console_error "Error rolling back:" error)
    (unlockMigration this).

(* ===================================================================== *)
(** ** Reading a trace *)
(* ===================================================================== *)

Definition ups_of (tr : list Event) : list string :=
  omap (fun e => match e with EvUp f => Some f | _ => None end) tr.

Definition downs_of (tr : list Event) : list string :=
  omap (fun e => match e with EvDown f => Some f | _ => None end) tr.

Definition calls_of (tr : list Event) : list ApiCall :=
  omap (fun e => match e with EvCall c => Some c | _ => None end) tr.

Definition errors_of (tr : list Event) : list (string * JsError) :=
  omap (fun e => match e with EvError m x => Some (m, x) | _ => None end) tr.

(** The errors with which the release step can reject. *)
Definition release_error (this : BQMigration) (e : JsError) : Prop :=
  e = unlock_failed this
  \/ e = ApiError (CQueryJob (UpdateUnlock (lock_id this)))
  \/ e = ApiError (CGetMetadata (UpdateUnlock (lock_id this))).

(* ===================================================================== *)
(** ** What the ledger says *)
(* ===================================================================== *)

(** [MAX(batch)], read as [Number(...) || 0]. *)
Definition current_batch (rows : list MigrationRecord) : Z :=
  number_or_zero (RMax (sql_max (map mr_batch rows))).

(** The highest batch number of the ledger, 0 for an empty ledger. *)
Definition max_batch (rows : list MigrationRecord) : Z :=
  default 0 (sql_max (map mr_batch rows)).

(** Is [name] recorded under batch [b]? *)
Definition in_batch (rows : list MigrationRecord) (b : Z) (name : string) : bool :=
  existsb (fun r => String.eqb name (mr_name r) && (mr_batch r =? b)) rows.

(** The catalog of a directory listing. *)
Definition catalog (entries : list string) : list string :=
  merge_sort String.le (List.filter valid_migration_file entries).

(** The scripts a rollback is to revert. *)
Definition rollback_targets (rows : list MigrationRecord) (entries : list string) : list string :=
  List.filter (fun f => in_batch rows (current_batch rows) (path_parse_name f)) (catalog entries).

(** The scripts a run is to apply. *)
Definition pending (rows : list MigrationRecord) (entries : list string) : list string :=
  List.filter (fun f => negb (includes (map mr_name rows) (path_parse_name f))) (catalog entries).

Definition same_bookkeeping (this : BQMigration) (t t' : Tables) : bool :=
  bool_decide (t' !! ledger_id this = t !! ledger_id this)
  && bool_decide (t' !! lock_id this = t !! lock_id this).

(** The [down]s of [files], one after the other from tables [t]: the tables
    they leave, provided each module loads, each [down] completes, and none
    touches the two bookkeeping tables. *)
Fixpoint downs_dry_run (this : BQMigration) (mods : gmap string Script)
    (files : list string) (t : Tables) : option Tables :=
  match files with
  | [] => Some t
  | file :: rest =>
      match mods !! path_join (migrationsDir this) file with
      | Some m =>
          match down m (bigquery this) (datasetId this) t with
          | (Ok _, t') =>
              if same_bookkeeping this t t' then downs_dry_run this mods rest t' else None
          | (Throw _, _) => None
          end
      | None => None
      end
  end.

(** The [up]s of [files], one after the other from tables [t], under the
    same provisos. *)
Fixpoint ups_dry_run (this : BQMigration) (mods : gmap string Script)
    (files : list string) (t : Tables) : option Tables :=
  match files with
  | [] => Some t
  | file :: rest =>
      match mods !! path_join (migrationsDir this) file with
      | Some m =>
          match up m (bigquery this) (datasetId this) t with
          | (Ok _, t') =>
              if same_bookkeeping this t t' then ups_dry_run this mods rest t' else None
          | (Throw _, _) => None
          end
      | None => None
      end
  end.

(* ===================================================================== *)
(** ** The pattern of the written specification *)
(* ===================================================================== *)

(** Regular expressions with Brzozowski derivatives, to read
    [^\d{3}_.+\.(js|ts)$] as it is written. *)
Inductive Regex :=
| RNone
| REps
| RClass (p : ascii -> bool)
| RSeq (r1 r2 : Regex)
| RAlt (r1 r2 : Regex)
| RStar (r : Regex).

Fixpoint nullable (r : Regex) : bool :=
  match r with
  | RNone => false
  | REps => true
  | RClass _ => false
  | RSeq r1 r2 => nullable r1 && nullable r2
  | RAlt r1 r2 => nullable r1 || nullable r2
  | RStar _ => true
  end.

Fixpoint deriv (c : ascii) (r : Regex) : Regex :=
  match r with
  | RNone | REps => RNone
  | RClass p => if p c then REps else RNone
  | RSeq r1 r2 =>
      if nullable r1 then RAlt (RSeq (deriv c r1) r2) (deriv c r2)
      else RSeq (deriv c r1) r2
  | RAlt r1 r2 => RAlt (deriv c r1) (deriv c r2)
  | RStar r1 => RSeq (deriv c r1) (RStar r1)
  end.

(** An anchored test: the whole string is to match. *)
Fixpoint regex_test (r : Regex) (s : string) : bool :=
  match s with
  | EmptyString => nullable r
  | String c s' => regex_test (deriv c r) s'
  end.

Definition lit (c : ascii) : Regex := RClass (Ascii.eqb c).

(** [.]: any character but a line terminator. *)
Definition dot : Regex :=
  RClass (fun c => negb (Ascii.eqb c "010" || Ascii.eqb c "013")).

Definition digit : Regex := RClass is_digit.

Definition script_file_pattern : Regex :=
  RSeq digit (RSeq digit (RSeq digit (RSeq (lit "_")
    (RSeq (RSeq dot (RStar dot))
      (RSeq (lit ".") (RAlt (RSeq (lit "j") (lit "s")) (RSeq (lit "t") (lit "s")))))))).

(* ===================================================================== *)
(** ** Two callers of [lockMigration] *)
(* ===================================================================== *)

(** The locals of one call of [lockMigration], between its [await]s. *)
Record LockFrame := mkFrame {
  lf_job : option Job;
  lf_affectedRows : option Z;
  lf_result : option (Outcome unit)
}.

Definition frame0 : LockFrame := mkFrame None None None.

(** One step of a call: up to its next [await], or to its end. The
    statement of the job is one step: the warehouse runs it atomically. *)
Definition lock_step (this : BQMigration) (f : LockFrame) (w : World) : LockFrame * World :=
  match lf_result f, lf_job f, lf_affectedRows f with
  | Some _, _, _ => (f, w)
  | None, None, _ =>
      match createQueryJob (bigquery this) (lock_stmt this) w with
      | (Ok job, w1) => (mkFrame (Some job) None None, w1)
      | (Throw e, w1) => (mkFrame None None (Some (Throw e)), w1)
      end
  | None, Some job, None =>
      match getMetadata job w with
      | (Ok n, w1) => (mkFrame (Some job) (Some n) None, w1)
      | (Throw e, w1) => (mkFrame (Some job) None (Some (Throw e)), w1)
      end
  | None, Some job, Some affectedRows =>
      let '(r, w1) := (if affectedRows =? 0 then throw (lock_failed this)
                       else console_info "Received migration lock.") w in
      (mkFrame (Some job) (Some affectedRows) (Some r), w1)
  end.

Fixpoint lock_steps (this : BQMigration) (n : nat) (f : LockFrame) (w : World)
    : LockFrame * World :=
  match n with
  | O => (f, w)
  | S n' => let '(f1, w1) := lock_step this f w in lock_steps this n' f1 w1
  end.

(** What the scheduler may do next: let caller A or caller B take a step,
    or let time pass. *)
Inductive Action :=
| StepA
| StepB
| Tick (seconds : nat).

Record Race := mkRace {
  callA : LockFrame;
  callB : LockFrame;
  world : World
}.

Definition race_step (this : BQMigration) (s : Race) (a : Action) : Race :=
  match a with
  | StepA => let '(f, w) := lock_step this (callA s) (world s) in mkRace f (callB s) w
  | StepB => let '(f, w) := lock_step this (callB s) (world s) in mkRace (callA s) f w
  | Tick d => mkRace (callA s) (callB s) (with_clock (clock (world s) + Z.of_nat d) (world s))
  end.

Definition race_run (this : BQMigration) (sched : list Action) (s : Race) : Race :=
  fold_left (race_step this) sched s.

Fixpoint elapsed (sched : list Action) : Z :=
  match sched with
  | [] => 0
  | Tick d :: rest => Z.of_nat d + elapsed rest
  | _ :: rest => elapsed rest
  end.

Fixpoint steps_of (a : bool) (sched : list Action) : nat :=
  match sched with
  | [] => O
  | StepA :: rest => (if a then 1 else 0) + steps_of a rest
  | StepB :: rest => (if a then 0 else 1) + steps_of a rest
  | Tick _ :: rest => steps_of a rest
  end.

(* ===================================================================== *)
(** ** The example of the repository *)
(* ===================================================================== *)

(** [example/migrations]: [up] creates one table, [down] deletes it. *)
Definition table_script (tableId : string) (schema : Schema) : Script :=
  {| up := fun _ ds t =>
       match t !! (ds, tableId) with
       | Some _ => (Throw (ApiError (CCreateTable (ds, tableId) schema)), t)
       | None => (Ok tt, <[(ds, tableId) := UserTable schema]> t)
       end;
     down := fun _ ds t =>
       match t !! (ds, tableId) with
       | Some _ => (Ok tt, delete (ds, tableId) t)
       | None => (Throw (ApiError (CDeleteTable (ds, tableId))), t)
       end |}.

Definition person_schema : Schema := [("name", "STRING"); ("age", "INTEGER")].
Definition person2_schema : Schema := [("name", "STRING"); ("ssn", "INTEGER")].

(** [example/bqMigrate.js] *)
Definition bqMigration : BQMigration :=
  constructor "/app"
    (mkRawConfig BigQueryClient "birdy_posts" None None None None None).

Definition example_modules : gmap string Script :=
  <["/app/migrations/001_init.js" := table_script "person" person_schema]>
  (<["/app/migrations/002_person.js" := table_script "person2" person2_schema]> ∅).

(** A world around the example: the two bookkeeping tables with the given
    rows, and a migrations directory with the given entries. *)
Definition example_world (lockRows : list LockRecord) (ledger : list MigrationRecord)
    (entries : list string) (fs : list bool) : World :=
  {| tables := <[("birdy_posts", "schema_migrations_lock") := LockTable lockRows]>
               (<[("birdy_posts", "schema_migrations") := LedgerTable ledger]> ∅);
     dirs := <["/app/migrations" := entries]> ∅;
     modules := example_modules;
     clock := 1000;
     tz_offset := fun _ => 0;
     faults := fs;
     trace := [];
     other_sql := fun _ _ => None |}.

Definition example_rollback_world : World :=
  with_tables
    (<[("birdy_posts", "person") := UserTable person_schema]>
       (<[("birdy_posts", "person2") := UserTable person2_schema]>
          (tables (example_world [mkLock false 0]
                     [mkMigration "001_init" 1 900; mkMigration "002_person" 2 950]
                     ["002_person.js"; "001_init.js"] []))))
    (example_world [mkLock false 0]
       [mkMigration "001_init" 1 900; mkMigration "002_person" 2 950]
       ["002_person.js"; "001_init.js"] []).

(* ===================================================================== *)
(** ** Vocabulary of the proofs *)
(* ===================================================================== *)

(** [emits P m]: whatever [m] does, it only appends events, all in [P]. *)
Definition emits {A} (P : Event -> Prop) (m : M A) : Prop :=
  forall w, exists evs, trace (snd (m w)) = trace w ++ evs /\ Forall P evs.

(** [throws_only E m]: when [m] throws, the error is in [E]. *)
Definition throws_only {A} (E : JsError -> Prop) (m : M A) : Prop :=
  forall w e w', m w = (Throw e, w') -> E e.

(** Events that are neither a lock attempt, nor the run of a script, nor a
    query. *)
Definition quiet (this : BQMigration) (ev : Event) : Prop :=
  ev <> EvCall (CQueryJob (lock_stmt this))
  /\ (forall f, ev <> EvUp f) /\ (forall f, ev <> EvDown f)
  /\ (forall s, ev <> EvCall (CQuery s)).

(** The world in which the [finally] block starts: the one the [try] block
    left, with its error, if any, just written by [console.error]. *)
Definition logged (msg : string) (x : Outcome unit * World) : World :=
  match x with
  | (Ok _, w1) => w1
  | (Throw e, w1) => with_trace (trace w1 ++ [EvError msg e]) w1
  end.

(** What the loop of [rollbackMigrations] records for a list of files. *)
Definition down_events (this : BQMigration) (files : list string) : list Event :=
  flat_map (fun f => [EvRequire (path_join (migrationsDir this) f); EvDown f]) files.

(** What the loop of [runMigrations] records for a list of files. *)
Definition up_events (this : BQMigration) (files : list string) : list Event :=
  flat_map (fun f => [EvRequire (path_join (migrationsDir this) f); EvUp f]) files.

(** How [lockMigration] ends once it has read [affectedRows]. *)
Definition verdict (this : BQMigration) (affectedRows : Z) : Outcome unit :=
  if affectedRows =? 0 then Throw (lock_failed this) else Ok tt.

(** A call whose update has run and reported [n] affected rows. *)
Inductive told (this : BQMigration) (n : Z) : LockFrame -> Prop :=
| told_job : told this n (mkFrame (Some (mkJob (lock_stmt this) n)) None None)
| told_meta : told this n (mkFrame (Some (mkJob (lock_stmt this) n)) (Some n) None)
| told_done :
    told this n (mkFrame (Some (mkJob (lock_stmt this) n)) (Some n) (Some (verdict this n))).

(** The steps a call still has to take. *)
Definition todo (f : LockFrame) : nat :=
  match lf_result f, lf_job f, lf_affectedRows f with
  | Some _, _, _ => 0
  | None, None, _ => 3
  | None, Some _, None => 2
  | None, Some _, Some _ => 1
  end.

Definition spent (a : bool) (act : Action) : nat :=
  match act with
  | StepA => if a then 1 else 0
  | StepB => if a then 0 else 1
  | Tick _ => 0
  end.

Definition now_of (this : BQMigration) (w : World) : Z := CURRENT_DATETIME (timezone this) w.

(** The invariant of a race on an unlocked row: nobody has updated yet; or
    one caller has, was told one row, and the row it locked stays unexpired
    for the time [budget] still to pass; or both have, and the second was
    told zero rows. *)
Inductive RaceInv (this : BQMigration) (budget : Z) (s : Race) : Prop :=
| inv_none t0 :
    callA s = frame0 -> callB s = frame0 ->
    tables (world s) !! lock_id this = Some (LockTable [mkLock false t0]) ->
    budget < migrationLockExpirationTime this ->
    RaceInv this budget s
| inv_A t1 :
    told this 1 (callA s) -> callB s = frame0 ->
    tables (world s) !! lock_id this = Some (LockTable [mkLock true t1]) ->
    now_of this (world s) - t1 + budget < migrationLockExpirationTime this ->
    RaceInv this budget s
| inv_B t1 :
    callA s = frame0 -> told this 1 (callB s) ->
    tables (world s) !! lock_id this = Some (LockTable [mkLock true t1]) ->
    now_of this (world s) - t1 + budget < migrationLockExpirationTime this ->
    RaceInv this budget s
| inv_AB : told this 1 (callA s) -> told this 0 (callB s) -> RaceInv this budget s
| inv_BA : told this 0 (callA s) -> told this 1 (callB s) -> RaceInv this budget s.

Ltac solve_todo :=
  split; try match goal with H : todo _ = pred _ |- _ => rewrite H end;
  unfold todo; simpl; lia.

(* ===================================================================== *)
(** ** Further vocabulary *)
(* ===================================================================== *)

(** [steps_tables Q m]: whatever [m] does, the tables before and after it
    are related by [Q]. *)
Definition steps_tables {A : Type} (Q : relation Tables) (m : M A) : Prop :=
  forall w, Q (tables w) (tables (snd (m w))).

(** The ledger table is created empty, or nothing changes. *)
Definition ledger_added (this : BQMigration) (t t' : Tables) : Prop :=
  t' = t \/ (t !! ledger_id this = None /\ t' = <[ledger_id this := LedgerTable []]> t).

(** Only the lock table may differ, and it keeps the number of its rows;
    a table that is not a lock table stays as it is. *)
Definition lock_rows_kept (this : BQMigration) (t t' : Tables) : Prop :=
  (forall k, k <> lock_id this -> t' !! k = t !! k)
  /\ match t !! lock_id this with
     | Some (LockTable rows) =>
         exists rows', t' !! lock_id this = Some (LockTable rows')
                       /\ length rows' = length rows
     | other => t' !! lock_id this = other
     end.



(** The value of a decimal digit, and the number a file name starts with. *)
Definition digit_value (c : ascii) : Z := Z.of_nat (nat_of_ascii c) - 48.

Definition prefix_number (file : string) : Z :=
  match file with
  | String a (String b (String c _)) => 100 * digit_value a + 10 * digit_value b + digit_value c
  | _ => 0
  end.

(** The world in which the loop of [rollbackMigrations] starts, when the
    lock was taken and the directory and the ledger were read. *)
Definition rollback_loop_world (this : BQMigration) (w : World) (lockRows : list LockRecord)
    (rows : list MigrationRecord) : World :=
  let now := CURRENT_DATETIME (timezone this) w in
  let expiry := migrationLockExpirationTime this in
  with_tables
    (<[lock_id this := LockTable (sql_update (lock_where now expiry) (lock_set now) lockRows)]>
       (tables w))
    (with_trace
       (trace w ++
        [EvCall (CQueryJob (lock_stmt this)); EvCall (CGetMetadata (lock_stmt this));
         EvInfo "Received migration lock."; EvReaddir (migrationsDir this);
         EvCall (CQuery (SelectMaxBatch (ledger_id this)));
         EvCall (CQuery (SelectNames (ledger_id this)
                           (batch_clause (Some (current_batch rows)))))])
       w).

(** The error with which the [down] of [f] throws once the [down]s of [pre]
    have completed, the bookkeeping tables being left alone throughout. *)
Definition down_fails_after (this : BQMigration) (mods : gmap string Script)
    (pre : list string) (f : string) (t : Tables) : option JsError :=
  match downs_dry_run this mods pre t with
  | Some t1 =>
      match mods !! path_join (migrationsDir this) f with
      | Some m =>
          match down m (bigquery this) (datasetId this) t1 with
          | (Throw e, t1') => if same_bookkeeping this t1 t1' then Some e else None
          | (Ok _, _) => None
          end
      | None => None
      end
  | None => None
  end.

(** One script of the current batch cannot be reverted: [person2] is gone. *)
Definition example_broken_world : World :=
  with_tables
    (<[("birdy_posts", "person") := UserTable person_schema]>
       (tables (example_world [mkLock false 0]
                  [mkMigration "001_init" 1 900; mkMigration "002_person" 1 900]
                  ["002_person.js"; "001_init.js"] [])))
    (example_world [mkLock false 0]
       [mkMigration "001_init" 1 900; mkMigration "002_person" 1 900]
       ["002_person.js"; "001_init.js"] []).

(** A script whose file name holds a single quote, recorded under batch 1;
    the warehouse refuses every text it is left to read. *)
Definition example_quote_world : World :=
  {| tables := <[("birdy_posts", "person") := UserTable person_schema]>
               (<[("birdy_posts", "schema_migrations_lock") := LockTable [mkLock false 0]]>
                  (<[("birdy_posts", "schema_migrations") :=
                       LedgerTable [mkMigration "001_don't" 1 900]]> ∅));
     dirs := <["/app/migrations" := ["001_don't.js"]]> ∅;
     modules := <["/app/migrations/001_don't.js" := table_script "person" person_schema]> ∅;
     clock := 1000;
     tz_offset := fun _ => 0;
     faults := [];
     trace := [];
     other_sql := fun _ _ => None |}.

(* ===================================================================== *)
(** * Properties *)
(* ===================================================================== *)

(* ===================================================================== *)
(** ** Numbers of the runtime *)
(* ===================================================================== *)

(** Up to [2 ^ 53] every integer is a double. *)
Lemma to_double_exact (z : Z) : Z.abs z <= 2 ^ 53 -> to_double z = z.
Proof.
  intros Hz. unfold to_double.
  destruct (Z.log2 (Z.abs z) <? 53) eqn:He; [done|].
  apply Z.ltb_ge in He.
  assert (2 ^ 53 <= Z.abs z) as Hge.
  { destruct (Z.lt_ge_cases (Z.abs z) (2 ^ 53)) as [Hlt|]; [|done].
    destruct (Z.eq_dec (Z.abs z) 0) as [E|E]; [rewrite E in He; simpl in He; lia|].
    apply Z.log2_lt_pow2 in Hlt; lia. }
  assert (Z.abs z = 2 ^ 53) as Habs by lia.
  rewrite Habs. destruct (Z.abs_eq_or_opp z) as [E|E]; rewrite E in Habs.
  - rewrite Habs. reflexivity.
  - assert (z = - 2 ^ 53) as -> by lia. reflexivity.
Qed.

Lemma to_double_large (x : Z) : 2 ^ 53 <= x -> 2 ^ 53 <= to_double x.
Proof.
  intros Hx. unfold to_double.
  assert (0 < x) as Hpos by lia.
  rewrite Z.abs_eq by lia.
  pose proof (Z.log2_spec x Hpos) as [Hlo Hhi].
  assert (53 <= Z.log2 x) as He by (apply Z.log2_le_pow2; lia).
  rewrite (proj2 (Z.ltb_ge _ _) He).
  rewrite Z.sgn_pos by done. rewrite Z.mul_1_l.
  set (e := Z.log2 x) in *. set (sh := e - 52).
  assert (0 < 2 ^ sh) as Hp by (apply Z.pow_pos_nonneg; lia).
  assert (2 ^ e = 2 ^ 52 * 2 ^ sh) as Hsplit.
  { rewrite <- Z.pow_add_r by lia. f_equal. lia. }
  assert (2 ^ 52 <= x / 2 ^ sh) as Hq.
  { apply Z.div_le_lower_bound; [done|]. lia. }
  assert (2 ^ 53 <= 2 ^ e) as Hpe by (apply Z.pow_le_mono_r; lia).
  unfold round_to_even.
  repeat match goal with |- context [if ?b then _ else _] => destruct b end; nia.
Qed.

(** Below [2 ^ 53] no shorter text reads back as the number. *)
Lemma shortest_digits_exact (k : nat) (a : Z) :
  0 <= a < 2 ^ 53 -> shortest_digits k a = a.
Proof.
  intros Ha. induction k as [|k IH]; [done|].
  cbn [shortest_digits]. set (step := 10 ^ Z.of_nat (S k)).
  assert (0 < step) as Hs by (apply Z.pow_pos_nonneg; lia).
  pose proof (Z.mul_div_le a step Hs) as Hlo.
  pose proof (Z.mod_pos_bound a step Hs) as Hm.
  pose proof (Z.div_mod a step ltac:(lia)) as Hdm.
  assert (0 <= a / step) as Hq by (apply Z.div_pos; lia).
  set (lo := a / step * step) in *.
  assert (0 <= lo <= a) as Hlo' by (unfold lo; nia).
  rewrite (to_double_exact lo) by (rewrite Z.abs_eq; lia).
  assert ((to_double (lo + step) =? a) = false) as Hhi.
  { apply Z.eqb_neq. destruct (Z.le_gt_cases (2 ^ 53) (lo + step)) as [Hbig|Hsmall].
    - pose proof (to_double_large _ Hbig). lia.
    - rewrite to_double_exact by (rewrite Z.abs_eq; lia). unfold lo. nia. }
  rewrite Hhi. destruct (lo =? a) eqn:E; [by apply Z.eqb_eq in E|exact IH].
Qed.

(** Up to [2 ^ 53] the text of a number is the number. *)
Lemma number_text_exact (d : Z) : Z.abs d <= 2 ^ 53 -> number_text d = d.
Proof.
  intros Hd. unfold number_text.
  destruct (Z.eq_dec (Z.abs d) (2 ^ 53)) as [E|E].
  - rewrite E. destruct (Z.abs_eq_or_opp d) as [E'|E']; rewrite E' in E.
    + rewrite E. vm_compute. reflexivity.
    + assert (d = - 2 ^ 53) as -> by lia. vm_compute. reflexivity.
  - rewrite shortest_digits_exact by lia.
    destruct d; simpl; lia.
Qed.

(** Beyond [2 ^ 53] neither holds: [2 ^ 53 + 1] is read as [2 ^ 53], and the
    text of [2 ^ 57] ends in a zero. *)
Example to_double_rounds :
  to_double 9007199254740993 = 9007199254740992
  /\ number_text (2 ^ 57) = 144115188075855870.
Proof. vm_compute. split; reflexivity. Qed.

Lemma batch_clause_exact (b : Z) :
  b <> 0 -> Z.abs b <= 2 ^ 53 -> batch_clause (Some b) = Some b.
Proof.
  intros Hb Hle. unfold batch_clause. rewrite to_double_exact by done.
  rewrite (proj2 (Z.eqb_neq _ _) Hb). by rewrite number_text_exact.
Qed.

Lemma delete_stmt_plain (this : BQMigration) (names : list string) (b : Z) :
  forallb plain_literal names = true -> Z.abs b <= 2 ^ 53 ->
  delete_stmt this names b = DeleteLedger (ledger_id this) names b.
Proof.
  intros Hn Hb. unfold delete_stmt. by rewrite Hn, number_text_exact.
Qed.

(* ===================================================================== *)
(** ** Strings and the catalog *)
(* ===================================================================== *)

Lemma endsWith_unfold (s suffix : string) :
  endsWith s suffix =
  if String.eqb s suffix then true
  else match s with
       | EmptyString => false
       | String _ s' => endsWith s' suffix
       end.
Proof. by destruct s. Qed.

Lemma endsWith_spec (s suffix : string) :
  endsWith s suffix = true <-> exists p, s = p +:+ suffix.
Proof.
  split.
  - induction s as [|a s IH]; rewrite endsWith_unfold.
    + destruct (String.eqb_spec "" suffix) as [Heq|Hne]; [|discriminate].
      intros _. exists "". by rewrite <- Heq.
    + destruct (String.eqb_spec (String a s) suffix) as [Heq|Hne].
      * intros _. exists "". by rewrite <- Heq.
      * intros H. destruct (IH H) as [p Hp]. exists (String a p). by rewrite Hp.
  - intros [p Hp]. subst s. induction p as [|a p IH]; rewrite endsWith_unfold.
    + simpl. by rewrite String.eqb_refl.
    + change (String a p +:+ suffix) with (String a (p +:+ suffix)).
      destruct (String.eqb _ _); [done|]. exact IH.
Qed.

Lemma test_3digits_underscore_spec (file : string) :
  test_3digits_underscore file = true <->
  exists a b c rest,
    file = String a (String b (String c (String "_" rest)))
    /\ is_digit a = true /\ is_digit b = true /\ is_digit c = true.
Proof.
  split.
  - destruct file as [|a [|b [|c [|d rest]]]]; simpl; try discriminate.
    rewrite !andb_true_iff. intros [[[Ha Hb] Hc] Hd].
    apply Ascii.eqb_eq in Hd. subst d. by exists a, b, c, rest.
  - intros (a & b & c & rest & Hf & Ha & Hb & Hc). subst file. simpl.
    by rewrite Ha, Hb, Hc.
Qed.

Lemma filter_none {A} (p : A -> bool) (l : list A) :
  (forall x, x ∈ l -> p x = false) -> List.filter p l = [].
Proof.
  induction l as [|a l IH]; intros H; [done|]. simpl.
  rewrite (H a) by set_solver. apply IH. intros x Hx. apply H. set_solver.
Qed.

Lemma catalog_elem (entries : list string) (f : string) :
  f ∈ catalog entries <-> f ∈ entries /\ valid_migration_file f = true.
Proof.
  unfold catalog. rewrite merge_sort_Permutation.
  rewrite !list_elem_of_In, filter_In. done.
Qed.

Lemma catalog_sorted (entries : list string) : StronglySorted String.le (catalog entries).
Proof. apply StronglySorted_merge_sort; apply _. Qed.

(** C9 (amended): [getMigrationFiles] returns exactly the directory entries
    whose name starts with three digits and an underscore and ends with
    [.js] or [.ts] (nothing is required in between), each as often as it is
    listed, sorted ascending on the full file name; when no entry qualifies
    the result is empty. *)
Theorem getMigrationFiles_spec (this : BQMigration) (w : World) (entries : list string) :
  dirs w !! migrationsDir this = Some entries ->
  exists files,
    fst (getMigrationFiles this w) = Ok files
    /\ (forall f, f ∈ files <->
          f ∈ entries
          /\ (exists a b c rest,
                f = String a (String b (String c (String "_" rest)))
                /\ is_digit a = true /\ is_digit b = true /\ is_digit c = true)
          /\ ((exists p, f = p +:+ ".js") \/ (exists p, f = p +:+ ".ts")))
    /\ StronglySorted String.le files
    /\ files ≡ₚ List.filter valid_migration_file entries
    /\ ((forall f, f ∈ entries -> valid_migration_file f = false) -> files = []).
Proof.
  intros Hdir. exists (catalog entries).
  split; [|split; [|split; [|split]]].
  - unfold getMigrationFiles, bind, readdir. by rewrite Hdir.
  - intros f. rewrite catalog_elem. unfold valid_migration_file.
    rewrite andb_true_iff, orb_true_iff, test_3digits_underscore_spec, !endsWith_spec.
    tauto.
  - apply catalog_sorted.
  - apply merge_sort_Permutation.
  - intros Hnone. unfold catalog.
    by rewrite filter_none.
Qed.

(* ===================================================================== *)
(** ** Client calls in a world without faults *)
(* ===================================================================== *)

Lemma api_no_fault {A} (c : ApiCall) (body : M A) (w : World) :
  faults w = [] -> api c body w = body (with_trace (trace w ++ [EvCall c]) w).
Proof. intros H. unfold api. simpl. by rewrite H. Qed.

Lemma createQueryJob_lock (this : BQMigration) (w : World) (rows : list LockRecord) :
  faults w = [] ->
  tables w !! lock_id this = Some (LockTable rows) ->
  let now := CURRENT_DATETIME (timezone this) w in
  let expiry := migrationLockExpirationTime this in
  createQueryJob (bigquery this) (lock_stmt this) w =
  (Ok (mkJob (lock_stmt this) (sql_count (lock_where now expiry) rows)),
   with_tables
     (<[lock_id this := LockTable (sql_update (lock_where now expiry) (lock_set now) rows)]>
        (tables w))
     (with_trace (trace w ++ [EvCall (CQueryJob (lock_stmt this))]) w)).
Proof.
  intros Hf Ht. unfold createQueryJob. rewrite api_no_fault by done.
  unfold exec_stmt, lock_stmt. simpl. by rewrite Ht.
Qed.

Lemma createQueryJob_unlock (this : BQMigration) (w : World) (rows : list LockRecord) :
  faults w = [] ->
  tables w !! lock_id this = Some (LockTable rows) ->
  createQueryJob (bigquery this) (UpdateUnlock (lock_id this)) w =
  (Ok (mkJob (UpdateUnlock (lock_id this)) (sql_count unlock_where rows)),
   with_tables
     (<[lock_id this := LockTable (sql_update unlock_where unlock_set rows)]> (tables w))
     (with_trace (trace w ++ [EvCall (CQueryJob (UpdateUnlock (lock_id this)))]) w)).
Proof.
  intros Hf Ht. unfold createQueryJob. rewrite api_no_fault by done.
  unfold exec_stmt. simpl. by rewrite Ht.
Qed.

Lemma getMetadata_no_fault (j : Job) (w : World) :
  faults w = [] ->
  getMetadata j w =
  (Ok (numDmlAffectedRows j), with_trace (trace w ++ [EvCall (CGetMetadata (job_stmt j))]) w).
Proof. intros Hf. unfold getMetadata. by rewrite api_no_fault. Qed.

Lemma sql_count_nonneg {R} (p : R -> bool) (rows : list R) : 0 <= sql_count p rows.
Proof. unfold sql_count. lia. Qed.

Lemma sql_count_zero {R} (p : R -> bool) (rows : list R) :
  sql_count p rows = 0 <-> forall r, In r rows -> p r = false.
Proof.
  unfold sql_count. induction rows as [|a rows IH]; simpl.
  - split; [intros _ r []|done].
  - destruct (p a) eqn:Ha; simpl.
    + split; [lia|]. intros H. specialize (H a (or_introl eq_refl)). congruence.
    + rewrite IH. split.
      * intros H r [<-|Hr]; auto.
      * intros H r Hr. apply H. by right.
Qed.

(** The lock call, step by step, in a world without faults. *)
Lemma lockMigration_run (this : BQMigration) (w : World) (rows : list LockRecord) :
  faults w = [] ->
  tables w !! lock_id this = Some (LockTable rows) ->
  let now := CURRENT_DATETIME (timezone this) w in
  let expiry := migrationLockExpirationTime this in
  let affected := sql_count (lock_where now expiry) rows in
  let w1 :=
    with_tables
      (<[lock_id this := LockTable (sql_update (lock_where now expiry) (lock_set now) rows)]>
         (tables w))
      (with_trace (trace w ++ [EvCall (CQueryJob (lock_stmt this));
                               EvCall (CGetMetadata (lock_stmt this))]) w) in
  lockMigration this w =
  if affected =? 0 then (Throw (lock_failed this), w1)
  else (Ok tt, with_trace (trace w1 ++ [EvInfo "Received migration lock."]) w1).
Proof.
  intros Hf Ht now expiry affected w1.
  unfold lockMigration, bind. rewrite (createQueryJob_lock this w rows Hf Ht).
  rewrite getMetadata_no_fault by done. simpl.
  fold now expiry affected.
  destruct (affected =? 0); unfold throw, console_info, emit, w1, with_tables, with_trace;
    simpl; rewrite <- ?app_assoc; reflexivity.
Qed.

(** C5: [lockMigration] sends one job, the conditional update, and reads its
    metadata; the update sets to (locked, now) every row that is unlocked or
    whose lock is at least [migrationLockExpirationTime] seconds old; the
    call throws the lock error exactly when zero rows were affected; and a
    row locked for at least the expiry is taken over. *)
Theorem lockMigration_spec (this : BQMigration) (w : World) (rows : list LockRecord) :
  faults w = [] ->
  tables w !! lock_id this = Some (LockTable rows) ->
  let now := CURRENT_DATETIME (timezone this) w in
  let expiry := migrationLockExpirationTime this in
  let hit := fun r => negb (is_locked r) || (expiry <=? now - locked_at r) in
  let affected := Z.of_nat (length (List.filter hit rows)) in
  exists r w',
    lockMigration this w = (r, w')
    /\ calls_of (trace w') =
       calls_of (trace w) ++ [CQueryJob (UpdateLock (lock_id this) (timezone this) expiry);
                              CGetMetadata (UpdateLock (lock_id this) (timezone this) expiry)]
    /\ tables w' =
       <[lock_id this := LockTable (map (fun r => if hit r then mkLock true now else r) rows)]>
         (tables w)
    /\ (r = Throw (lock_failed this) <-> affected = 0)
    /\ (r = Ok tt <-> affected <> 0)
    /\ (forall t, rows = [mkLock true t] -> expiry <= now - t ->
          r = Ok tt /\ tables w' !! lock_id this = Some (LockTable [mkLock true now])).
Proof.
  intros Hf Ht now expiry hit affected.
  pose proof (lockMigration_run this w rows Hf Ht) as Hrun. simpl in Hrun.
  change (sql_count (lock_where (CURRENT_DATETIME (timezone this) w)
            (migrationLockExpirationTime this)) rows) with affected in Hrun.
  change (sql_update _ _ rows)
    with (map (fun r => if hit r then mkLock true now else r) rows) in Hrun.
  destruct (affected =? 0) eqn:Haff; eexists _, _; (split; [exact Hrun|]).
  - apply Z.eqb_eq in Haff. simpl. unfold calls_of. rewrite omap_app. simpl.
    split; [done|]. split; [done|]. split; [done|]. split; [split; [done|lia]|].
    intros t Hrows Hexp. exfalso. subst rows. unfold affected in Haff. simpl in Haff.
    unfold hit in Haff. simpl in Haff.
    destruct (expiry <=? now - t) eqn:E; [simpl in Haff; lia|]. apply Z.leb_gt in E. lia.
  - apply Z.eqb_neq in Haff. simpl. unfold calls_of. rewrite !omap_app. simpl.
    rewrite app_nil_r.
    split; [done|]. split; [done|]. split; [split; [done|lia]|]. split; [done|].
    intros t Hrows Hexp. split; [done|]. subst rows. rewrite lookup_insert_eq. simpl.
    unfold hit. simpl. by rewrite (proj2 (Z.leb_le _ _) Hexp).
Qed.

Lemma lockMigration_spec_witness :
  exists r w',
    lockMigration bqMigration (example_world [mkLock true 900] [] [] []) = (r, w')
    /\ r = Ok tt
    /\ tables w' !! lock_id bqMigration = Some (LockTable [mkLock true 1000]).
Proof.
  destruct (lockMigration_spec bqMigration (example_world [mkLock true 900] [] [] [])
              [mkLock true 900] eq_refl eq_refl)
    as (r & w' & Hrun & _ & _ & _ & _ & Hexp).
  exists r, w'. split; [exact Hrun|]. apply (Hexp 900); [reflexivity|]. vm_compute. discriminate.
Defined.

(* ===================================================================== *)
(** ** What a method can add to the trace *)
(* ===================================================================== *)


Section emission.

Context (P : Event -> Prop).

Lemma emits_ret {A} (a : A) : emits P (ret a).
Proof. intros w. exists []. by rewrite app_nil_r. Qed.

Lemma emits_throw {A} e : emits P (@throw A e).
Proof. intros w. exists []. by rewrite app_nil_r. Qed.

Lemma emits_emit e : P e -> emits P (emit e).
Proof. intros He w. exists [e]. split; [done|]. by constructor. Qed.

Lemma emits_bind {A B} (m : M A) (k : A -> M B) :
  emits P m -> (forall a, emits P (k a)) -> emits P (bind m k).
Proof.
  intros Hm Hk w. unfold bind. destruct (Hm w) as (evs & Ht & HP).
  destruct (m w) as [[a|e] w1]; simpl in *.
  - destruct (Hk a w1) as (evs' & Ht' & HP'). exists (evs ++ evs').
    rewrite Ht', Ht, app_assoc. split; [done|]. by apply Forall_app.
  - by exists evs.
Qed.

Lemma emits_api {A} c (body : M A) :
  P (EvCall c) -> emits P body -> emits P (api c body).
Proof.
  intros Hc Hb w. unfold api. simpl.
  destruct (faults w) as [|[] fs].
  - destruct (Hb (with_trace (trace w ++ [EvCall c]) w)) as (evs & Ht & HP).
    exists (EvCall c :: evs). rewrite Ht. simpl. rewrite <- app_assoc. split; [done|].
    by constructor.
  - exists [EvCall c]. split; [done|]. by constructor.
  - destruct (Hb (with_faults fs (with_trace (trace w ++ [EvCall c]) w))) as (evs & Ht & HP).
    exists (EvCall c :: evs). rewrite Ht. simpl. rewrite <- app_assoc. split; [done|].
    by constructor.
Qed.

(** A step that leaves the trace alone. *)
Lemma emits_silent {A} (m : M A) : (forall w, trace (snd (m w)) = trace w) -> emits P m.
Proof. intros H w. exists []. by rewrite H, app_nil_r. Qed.

Lemma emits_weaken {A} (Q : Event -> Prop) (m : M A) :
  (forall e, P e -> Q e) -> emits P m -> emits Q m.
Proof.
  intros HPQ Hm w. destruct (Hm w) as (evs & Ht & HP). exists evs. split; [done|].
  eapply Forall_impl; eauto.
Qed.

Lemma emits_try_catch_finally {A} (body : M A) handler fin :
  emits P body -> (forall e, emits P (handler e)) -> emits P fin ->
  emits P (try_catch_finally body handler fin).
Proof.
  intros Hb Hh Hf w. unfold try_catch_finally.
  destruct (Hb w) as (evs1 & Ht1 & HP1). destruct (body w) as [r1 w1]. simpl in *.
  assert (exists evs2, forall r2 w2,
            (match r1 with Ok a => (Ok a, w1) | Throw e => handler e w1 end) = (r2, w2) ->
            trace w2 = trace w1 ++ evs2 /\ Forall P evs2) as (evs2 & H2).
  { destruct r1 as [a|e].
    - exists []. intros r2 w2 [= <- <-]. by rewrite app_nil_r.
    - destruct (Hh e w1) as (evs2 & Ht2 & HP2). exists evs2. intros r2 w2 Heq.
      by rewrite Heq in Ht2. }
  destruct (match r1 with Ok a => (Ok a, w1) | Throw e => handler e w1 end) as [r2 w2].
  destruct (H2 r2 w2 eq_refl) as [Ht2 HP2].
  destruct (Hf w2) as (evs3 & Ht3 & HP3). destruct (fin w2) as [r3 w3]. simpl in *.
  exists (evs1 ++ evs2 ++ evs3). split.
  - destruct r3; simpl; rewrite Ht3, Ht2, Ht1, <- !app_assoc; done.
  - by rewrite !Forall_app.
Qed.

Lemma emits_table_exists c ds t :
  P (EvCall (CExists (ds, t))) -> emits P (table_exists c ds t).
Proof. intros H. apply emits_api; [done|]. by apply emits_silent. Qed.

Lemma emits_createTable c ds t schema :
  P (EvCall (CCreateTable (ds, t) schema)) -> emits P (createTable c ds t schema).
Proof.
  intros H. apply emits_api; [done|]. apply emits_silent. intros w.
  by destruct (tables w !! (ds, t)).
Qed.

Lemma emits_bq_query c s : P (EvCall (CQuery s)) -> emits P (bq_query c s).
Proof.
  intros H. apply emits_api; [done|]. apply emits_silent. intros w.
  by destruct (exec_stmt s w) as [[r t]|].
Qed.

Lemma emits_createQueryJob c s : P (EvCall (CQueryJob s)) -> emits P (createQueryJob c s).
Proof.
  intros H. apply emits_api; [done|]. apply emits_silent. intros w.
  by destruct (exec_stmt s w) as [[r t]|].
Qed.

Lemma emits_getMetadata j : P (EvCall (CGetMetadata (job_stmt j))) -> emits P (getMetadata j).
Proof. intros H. apply emits_api; [done|]. apply emits_ret. Qed.

End emission.

(* ===================================================================== *)
(** ** The release step and the two [try] blocks *)
(* ===================================================================== *)


Lemma createQueryJob_cases c s w :
  (exists n w', createQueryJob c s w = (Ok (mkJob s n), w'))
  \/ (exists w', createQueryJob c s w = (Throw (ApiError (CQueryJob s)), w')).
Proof.
  unfold createQueryJob, api. simpl.
  destruct (faults w) as [|[] fs]; try (right; eauto; fail);
    match goal with |- context [exec_stmt s ?w1] => destruct (exec_stmt s w1) as [[r t]|] end;
    eauto.
Qed.

Lemma getMetadata_cases j w :
  (exists w', getMetadata j w = (Ok (numDmlAffectedRows j), w'))
  \/ (exists w', getMetadata j w = (Throw (ApiError (CGetMetadata (job_stmt j))), w')).
Proof.
  unfold getMetadata, api, ret. simpl. destruct (faults w) as [|[] fs]; eauto.
Qed.

Lemma unlockMigration_outcome (this : BQMigration) (w : World) :
  fst (unlockMigration this w) = Ok tt
  \/ exists e, fst (unlockMigration this w) = Throw e /\ release_error this e.
Proof.
  unfold unlockMigration, bind, release_error.
  destruct (createQueryJob_cases (bigquery this) (UpdateUnlock (lock_id this)) w)
    as [(n & w1 & ->)|(w1 & ->)]; [|right; eauto].
  destruct (getMetadata_cases (mkJob (UpdateUnlock (lock_id this)) n) w1)
    as [(w2 & ->)|(w2 & ->)]; [|right; simpl; eauto].
  simpl. destruct (n =? 0); [right|left]; simpl; eauto.
Qed.

Lemma emits_bind_job {B} P c s (k : Job -> M B) :
  P (EvCall (CQueryJob s)) -> (forall n, emits P (k (mkJob s n))) ->
  emits P (bind (createQueryJob c s) k).
Proof.
  intros Hc Hk w. unfold bind.
  destruct (emits_createQueryJob P c s Hc w) as (evs & Ht & HP).
  destruct (createQueryJob_cases c s w) as [(n & w1 & Heq)|(w1 & Heq)];
    rewrite Heq in *; simpl in *.
  - destruct (Hk n w1) as (evs' & Ht' & HP'). exists (evs ++ evs').
    rewrite Ht', Ht, app_assoc. split; [done|]. by apply Forall_app.
  - by exists evs.
Qed.

Lemma emits_lock_or_unlock (this : BQMigration) (P : Event -> Prop) s e msg :
  P (EvCall (CQueryJob s)) -> P (EvCall (CGetMetadata s)) -> P (EvInfo msg) ->
  emits P (job <- createQueryJob (bigquery this) s ;;
           affectedRows <- getMetadata job ;;
           if affectedRows =? 0 then throw e else console_info msg).
Proof.
  intros H1 H2 H3. apply emits_bind_job; [done|]. intros n.
  apply emits_bind; [by apply emits_getMetadata|]. intros a.
  destruct (a =? 0); [apply emits_throw|by apply emits_emit].
Qed.

Lemma emits_unlockMigration (this : BQMigration) (P : Event -> Prop) :
  P (EvCall (CQueryJob (UpdateUnlock (lock_id this)))) ->
  P (EvCall (CGetMetadata (UpdateUnlock (lock_id this)))) ->
  P (EvInfo "Removed migration lock.") ->
  emits P (unlockMigration this).
Proof. apply emits_lock_or_unlock. Qed.

Lemma emits_createMigrationTable (this : BQMigration) (P : Event -> Prop) :
  P (EvCall (CExists (ledger_id this))) ->
  P (EvCall (CCreateTable (ledger_id this) migrationSchema)) ->
  P (EvInfo ("Created " +:+ migrationTableName this +:+ " table.")) ->
  emits P (createMigrationTable this).
Proof.
  intros H1 H2 H3. unfold createMigrationTable.
  apply emits_bind; [by apply emits_table_exists|]. intros [|]; simpl; [apply emits_ret|].
  apply emits_bind; [by apply emits_createTable|]. intros _. by apply emits_emit.
Qed.


Lemma throws_bind {A B} E (m : M A) (k : A -> M B) :
  throws_only E m -> (forall a, throws_only E (k a)) -> throws_only E (bind m k).
Proof.
  intros Hm Hk w e w'. unfold bind. destruct (m w) as [[a|e1] w1] eqn:Hmw.
  - apply Hk.
  - intros [= <- <-]. eapply Hm; eauto.
Qed.

Lemma throws_api {A} (E : JsError -> Prop) c (body : M A) :
  E (ApiError c) -> throws_only E body -> throws_only E (api c body).
Proof.
  intros Hc Hb w e w'. unfold api. simpl. destruct (faults w) as [|[] fs].
  - apply Hb.
  - by intros [= <- <-].
  - apply Hb.
Qed.

Lemma throws_never {A} E (m : M A) : (forall w, exists a, fst (m w) = Ok a) -> throws_only E m.
Proof. intros H w e w' Heq. destruct (H w) as [a Ha]. rewrite Heq in Ha. discriminate. Qed.

(** The errors [createMigrationTable] can throw. *)
Lemma createMigrationTable_throws (this : BQMigration) :
  throws_only (fun e => e = ApiError (CExists (ledger_id this))
                        \/ e = ApiError (CCreateTable (ledger_id this) migrationSchema))
    (createMigrationTable this).
Proof.
  unfold createMigrationTable. apply throws_bind.
  - apply throws_api; [by left|]. apply throws_never. eauto.
  - intros [|]; simpl; [apply throws_never; eauto|].
    apply throws_bind.
    + apply throws_api; [by right|]. intros w e w'.
      destruct (tables w !! _); [|discriminate]. intros [= <- <-]. by right.
    + intros _. apply throws_never. eauto.
Qed.

(** Steps 1 of [runMigrations] never complete: the second one stops at
    its first identifier. *)
Lemma run_try_throws (this : BQMigration) (w : World) :
  exists e w1,
    run_try this w = (Throw e, w1)
    /\ (createMigrationTable this ;;; createMigrationLockTable this) w = (Throw e, w1)
    /\ (e = ReferenceError "bigquery"
        \/ e = ApiError (CExists (ledger_id this))
        \/ e = ApiError (CCreateTable (ledger_id this) migrationSchema)).
Proof.
  unfold run_try, bind. destruct (createMigrationTable this w) as [[[]|e] w1] eqn:Hc.
  - exists (ReferenceError "bigquery"), w1. auto.
  - exists e, w1. split; [done|]. split; [done|]. right.
    eapply (createMigrationTable_throws this); eauto.
Qed.

Lemma emits_run_try (this : BQMigration) (P : Event -> Prop) :
  P (EvCall (CExists (ledger_id this))) ->
  P (EvCall (CCreateTable (ledger_id this) migrationSchema)) ->
  P (EvInfo ("Created " +:+ migrationTableName this +:+ " table.")) ->
  emits P (run_try this).
Proof.
  intros H1 H2 H3 w.
  destruct (emits_createMigrationTable this P H1 H2 H3 w) as (evs & Ht & HP).
  exists evs. split; [|done]. rewrite <- Ht. unfold run_try, bind.
  by destruct (createMigrationTable this w) as [[[]|e] w1].
Qed.

(** Both methods complete as their release step does, run once any error
    of the [try] block has been logged. *)
Lemma runMigrations_unfold (this : BQMigration) (w : World) :
  runMigrations this w =
  unlockMigration this (logged "Error running migrations:" (run_try this w)).
Proof.
  unfold runMigrations, try_catch_finally, logged.
  destruct (run_try this w) as [[[]|e] w1]; simpl;
    by destruct (unlockMigration this _) as [[[]|e'] w3].
Qed.

Lemma rollbackMigrations_unfold (this : BQMigration) (w : World) :
  rollbackMigrations this w =
  unlockMigration this (logged "Error rolling back:" (rollback_try this w)).
Proof.
  unfold rollbackMigrations, try_catch_finally, logged.
  destruct (rollback_try this w) as [[[]|e] w1]; simpl;
    by destruct (unlockMigration this _) as [[[]|e'] w3].
Qed.

Lemma unlockMigration_trace (this : BQMigration) (w : World) :
  exists evs, trace (snd (unlockMigration this w)) = trace w ++ evs.
Proof.
  destruct (emits_unlockMigration this (fun _ => True) I I I w) as (evs & Ht & _). eauto.
Qed.

Lemma logged_error_in_trace (this : BQMigration) msg (x : Outcome unit * World) :
  match x with
  | (Throw e, _) => In (EvError msg e) (trace (snd (unlockMigration this (logged msg x))))
  | (Ok _, _) => True
  end.
Proof.
  destruct x as [[[]|e] w1]; [done|].
  destruct (unlockMigration_trace this (logged msg (Throw e, w1))) as (evs & ->).
  simpl. rewrite !in_app_iff. left. right. by left.
Qed.

(** C1 (amended): in [runMigrations] and in [rollbackMigrations] every error
    thrown inside the [try] block is written by [console.error] and is not
    what the caller gets; the call completes exactly as the release step of
    the [finally] block does, so it resolves when the release succeeds and
    rejects with the release error otherwise. *)
Theorem caught_errors_are_logged_release_errors_reject (this : BQMigration) (w : World) :
  (let '(r, w') := runMigrations this w in
     (r, w') = unlockMigration this (logged "Error running migrations:" (run_try this w))
     /\ match run_try this w with
        | (Throw e, _) => In (EvError "Error running migrations:" e) (trace w')
        | (Ok _, _) => True
        end
     /\ (r = Ok tt \/ exists e, r = Throw e /\ release_error this e))
  /\
  (let '(r, w') := rollbackMigrations this w in
     (r, w') = unlockMigration this (logged "Error rolling back:" (rollback_try this w))
     /\ match rollback_try this w with
        | (Throw e, _) => In (EvError "Error rolling back:" e) (trace w')
        | (Ok _, _) => True
        end
     /\ (r = Ok tt \/ exists e, r = Throw e /\ release_error this e)).
Proof.
  split.
  - pose proof (logged_error_in_trace this "Error running migrations:" (run_try this w)) as Hl.
    pose proof (unlockMigration_outcome this
                  (logged "Error running migrations:" (run_try this w))) as Ho.
    rewrite <- runMigrations_unfold in Hl, Ho.
    pose proof (runMigrations_unfold this w) as Hu.
    destruct (runMigrations this w) as [r w']. by simpl in *.
  - pose proof (logged_error_in_trace this "Error rolling back:" (rollback_try this w)) as Hl.
    pose proof (unlockMigration_outcome this
                  (logged "Error rolling back:" (rollback_try this w))) as Ho.
    rewrite <- rollbackMigrations_unfold in Hl, Ho.
    pose proof (rollbackMigrations_unfold this w) as Hu.
    destruct (rollbackMigrations this w) as [r w']. by simpl in *.
Qed.

(* ===================================================================== *)
(** ** [runMigrations] stops in its first step *)
(* ===================================================================== *)


Lemma quiet_calls (this : BQMigration) (evs : list Event) :
  Forall (quiet this) evs ->
  ~ In (CQueryJob (lock_stmt this)) (calls_of evs)
  /\ ups_of evs = [] /\ downs_of evs = []
  /\ (forall s, ~ In (CQuery s) (calls_of evs)).
Proof.
  induction 1 as [|ev evs (H1 & H2 & H3 & H4) _ (IH1 & IH2 & IH3 & IH4)]; [by auto|].
  destruct ev as [c| | |f|f| |]; simpl; try by auto.
  - repeat split; auto.
    + intros [-> | Hin]; [by apply H1|by apply IH1].
    + intros s [-> | Hin]; [by apply (H4 s)|by apply (IH4 s)].
  - by destruct (H2 f).
  - by destruct (H3 f).
Qed.

Lemma emits_runMigrations_quiet (this : BQMigration) :
  emits (quiet this) (runMigrations this).
Proof.
  assert (forall ev, (match ev with
                      | EvCall (CQueryJob (UpdateLock _ _ _)) | EvCall (CQuery _)
                      | EvUp _ | EvDown _ => False
                      | _ => True
                      end) -> quiet this ev) as Hq.
  { intros ev. unfold quiet, lock_stmt.
    destruct ev as [[| | | |[]|]| | | | | |]; intros H; try done; repeat split; congruence. }
  apply emits_try_catch_finally.
  - apply emits_run_try; by apply Hq.
  - intros e. apply emits_emit. by apply Hq.
  - apply emits_unlockMigration; by apply Hq.
Qed.

(** C7 (amended): when creating the migration table or the lock table fails
    in [runMigrations], the error is caught and written by [console.error]
    instead of reaching the caller; no lock acquisition is attempted, no
    script runs and no statement is sent through [client.query]. *)
Theorem ensure_failure_is_caught (this : BQMigration) (w : World) (e : JsError) :
  fst ((createMigrationTable this ;;; createMigrationLockTable this) w) = Throw e ->
  exists r w' evs,
    runMigrations this w = (r, w')
    /\ trace w' = trace w ++ evs
    /\ In ("Error running migrations:", e) (errors_of evs)
    /\ ~ In (CQueryJob (lock_stmt this)) (calls_of evs)
    /\ ups_of evs = []
    /\ (forall s, ~ In (CQuery s) (calls_of evs))
    /\ r <> Throw e.
Proof.
  intros Hens.
  destruct (run_try_throws this w) as (e' & w1 & Htry & Hens' & He).
  rewrite Hens' in Hens. injection Hens as ->.
  destruct (emits_run_try this (fun _ => True) I I I w) as (evs1 & Ht1 & _).
  rewrite Htry in Ht1. simpl in Ht1.
  pose proof (runMigrations_unfold this w) as Hu. rewrite Htry in Hu. simpl in Hu.
  destruct (unlockMigration_trace this
              (with_trace (trace w1 ++ [EvError "Error running migrations:" e]) w1))
    as (evs3 & Ht3).
  pose proof (unlockMigration_outcome this
                (with_trace (trace w1 ++ [EvError "Error running migrations:" e]) w1)) as Ho.
  rewrite <- Hu in Ht3, Ho.
  destruct (emits_runMigrations_quiet this w) as (evs & Ht & Hq).
  destruct (runMigrations this w) as [r w']. simpl in *.
  exists r, w', evs. split; [done|]. split; [done|].
  apply quiet_calls in Hq as (Hlock & Hups & _ & Hquery).
  assert (evs = evs1 ++ [EvError "Error running migrations:" e] ++ evs3) as Hevs.
  { apply (app_inv_head (trace w)). rewrite <- Ht, Ht3, Ht1, <- !app_assoc. done. }
  split; [|split; [done|split; [done|split; [done|]]]].
  - rewrite Hevs. unfold errors_of. rewrite !omap_app, !in_app_iff. right. left. by left.
  - unfold release_error, unlock_failed in Ho.
    destruct Ho as [-> | (e3 & -> & [-> | [-> | ->]])]; [done|..];
      destruct He as [-> | [-> | ->]]; discriminate.
Qed.

Lemma ensure_failure_is_caught_witness :
  exists r w' evs,
    runMigrations bqMigration (example_world [mkLock true 995] [] [] [true]) = (r, w')
    /\ trace w' = [] ++ evs
    /\ In ("Error running migrations:", ApiError (CExists (ledger_id bqMigration)))
         (errors_of evs)
    /\ ~ In (CQueryJob (lock_stmt bqMigration)) (calls_of evs)
    /\ ups_of evs = []
    /\ (forall s, ~ In (CQuery s) (calls_of evs))
    /\ r <> Throw (ApiError (CExists (ledger_id bqMigration))).
Proof.
  eapply (ensure_failure_is_caught bqMigration
            (example_world [mkLock true 995] [] [] [true])).
  vm_compute. reflexivity.
Defined.

(** C7 as written fails: a rejected existence check of the migration table,
    and the reference error of the lock table step, are both swallowed; the
    call resolves. *)
Lemma ensure_failure_not_propagated :
  (fst ((createMigrationTable bqMigration ;;; createMigrationLockTable bqMigration)
          (example_world [mkLock true 995] [] [] [true]))
     = Throw (ApiError (CExists (ledger_id bqMigration)))
   /\ fst (runMigrations bqMigration (example_world [mkLock true 995] [] [] [true])) = Ok tt)
  /\
  (fst ((createMigrationTable bqMigration ;;; createMigrationLockTable bqMigration)
          (example_world [mkLock true 995] [] [] []))
     = Throw (ReferenceError "bigquery")
   /\ fst (runMigrations bqMigration (example_world [mkLock true 995] [] [] [])) = Ok tt).
Proof. vm_compute. repeat split. Qed.

(** C1 as written fails: a release that affects zero rows, or whose job is
    rejected after the lock was taken, rejects the call. *)
Lemma release_failure_rejects :
  fst (runMigrations bqMigration (example_world [mkLock false 0] [] [] []))
    = Throw (unlock_failed bqMigration)
  /\ fst (rollbackMigrations bqMigration
            (example_world [mkLock false 0] [] [] [false; false; false; false; true]))
    = Throw (ApiError (CQueryJob (UpdateUnlock (lock_id bqMigration))))
  /\ fst (rollbackMigrations bqMigration (example_world [] [] [] []))
    = Throw (unlock_failed bqMigration).
Proof. vm_compute. repeat split. Qed.

(** C4: [createMigrationLockTable] throws [ReferenceError: bigquery is not
    defined] for every instance and every world, and leaves the world as it
    was: no call is made, no table created, no row inserted. *)
Theorem createMigrationLockTable_reference_error (this : BQMigration) (w : World) :
  createMigrationLockTable this w = (Throw (ReferenceError "bigquery"), w).
Proof. reflexivity. Qed.

(** The bookkeeping of a run that executed something stops at the same
    identifier, before any statement is sent. *)
Lemma run_record_reference_error (this : BQMigration) (ran : list string) (w : World) :
  ran <> [] -> run_record this ran w = (Throw (ReferenceError "bigquery"), w).
Proof. intros H. destruct ran; [done|]. reflexivity. Qed.

(** C8, on the example with an empty ledger and two scripts: both scripts
    are pending, and [runMigrations] runs neither; it logs the reference
    error of its first step and leaves the warehouse as it was. *)
Theorem runMigrations_runs_no_pending_script :
  let w := example_world [mkLock false 0] [] ["002_person.js"; "001_init.js"] [] in
  pending [] ["002_person.js"; "001_init.js"] = ["001_init.js"; "002_person.js"]
  /\ ups_of (trace (snd (runMigrations bqMigration w))) = []
  /\ errors_of (trace (snd (runMigrations bqMigration w)))
     = [("Error running migrations:", ReferenceError "bigquery")]
  /\ tables (snd (runMigrations bqMigration w)) !! ledger_id bqMigration
     = Some (LedgerTable [])
  /\ map fst (map_to_list (tables (snd (runMigrations bqMigration w))))
     = [lock_id bqMigration; ledger_id bqMigration].
Proof. vm_compute. repeat split. Qed.

(** C6, on a lock row held by somebody else and not expired: the lock call
    of [rollbackMigrations] fails, and the [finally] block then sends the
    unlock update, which sets the foreign lock free. *)
Theorem failed_acquisition_releases_the_lock :
  let w := example_world [mkLock true 995] [mkMigration "001_init" 1 900] ["001_init.js"] [] in
  fst (lockMigration bqMigration w) = Throw (lock_failed bqMigration)
  /\ tables w !! lock_id bqMigration = Some (LockTable [mkLock true 995])
  /\ (let '(r, w') := rollbackMigrations bqMigration w in
      r = Ok tt
      /\ calls_of (trace w')
         = [CQueryJob (lock_stmt bqMigration); CGetMetadata (lock_stmt bqMigration);
            CQueryJob (UpdateUnlock (lock_id bqMigration));
            CGetMetadata (UpdateUnlock (lock_id bqMigration))]
      /\ tables w' !! lock_id bqMigration = Some (LockTable [mkLock false 995])).
Proof. vm_compute. repeat split. Qed.

(** C9 as written fails: [001_.js] is returned although the pattern of the
    written specification rejects it. *)
Lemma getMigrationFiles_keeps_empty_stem :
  fst (getMigrationFiles bqMigration (example_world [] [] ["001_.js"; "notes.txt"] []))
    = Ok ["001_.js"]
  /\ regex_test script_file_pattern "001_.js" = false
  /\ regex_test script_file_pattern "001_init.js" = true.
Proof. vm_compute. repeat split. Qed.

Lemma getMigrationFiles_spec_witness :
  exists files,
    fst (getMigrationFiles bqMigration
           (example_world [] [] ["002_person.js"; "README.md"; "001_init.js"] [])) = Ok files
    /\ files = ["001_init.js"; "002_person.js"].
Proof.
  destruct (getMigrationFiles_spec bqMigration
              (example_world [] [] ["002_person.js"; "README.md"; "001_init.js"] [])
              ["002_person.js"; "README.md"; "001_init.js"] eq_refl)
    as (files & Hrun & _).
  exists files. split; [exact Hrun|].
  vm_compute in Hrun. by injection Hrun as <-.
Defined.

(* ===================================================================== *)
(** ** Two callers racing for the lock *)
(* ===================================================================== *)
Lemma elapsed_nonneg (sched : list Action) : 0 <= elapsed sched.
Proof. induction sched as [|[| |d] sched IH]; simpl; lia. Qed.

Lemma lock_step_fresh (this : BQMigration) (w : World) (row : LockRecord) :
  faults w = [] ->
  tables w !! lock_id this = Some (LockTable [row]) ->
  exists w',
    lock_step this frame0 w =
      (mkFrame (Some (mkJob (lock_stmt this)
                        (if lock_where (now_of this w) (migrationLockExpirationTime this) row
                         then 1 else 0))) None None, w')
    /\ tables w' !! lock_id this =
       Some (LockTable [if lock_where (now_of this w) (migrationLockExpirationTime this) row
                        then mkLock true (now_of this w) else row])
    /\ faults w' = [] /\ now_of this w' = now_of this w.
Proof.
  intros Hf Ht. unfold lock_step. simpl.
  rewrite (createQueryJob_lock this w [row] Hf Ht). eexists. split.
  - f_equal. f_equal. f_equal. f_equal. unfold sql_count, now_of. simpl.
    by destruct (lock_where _ _ row).
  - simpl. rewrite lookup_insert_eq. unfold now_of, lock_set. simpl. done.
Qed.

Lemma lock_step_told (this : BQMigration) (n : Z) (f : LockFrame) (w : World) :
  told this n f -> faults w = [] ->
  exists f' w',
    lock_step this f w = (f', w')
    /\ told this n f' /\ todo f' = pred (todo f)
    /\ tables w' = tables w /\ faults w' = [] /\ now_of this w' = now_of this w.
Proof.
  intros Hto Hf. destruct Hto; unfold lock_step; simpl.
  - rewrite getMetadata_no_fault by done. simpl. eexists _, _. split; [done|].
    repeat split; try done. constructor.
  - unfold verdict. destruct (n =? 0) eqn:E; simpl; eexists _, _; (split; [done|]);
      repeat split; try done.
    + replace (Throw (lock_failed this)) with (verdict this n) by (unfold verdict; by rewrite E).
      constructor.
    + replace (Ok tt) with (verdict this n) by (unfold verdict; by rewrite E).
      constructor.
  - eexists _, _. split; [done|]. repeat split; try done. constructor.
Qed.

Lemma todo_told_pos (this : BQMigration) (n : Z) (f : LockFrame) :
  told this n f -> todo f = O ->
  lf_result f = Some (verdict this n) /\ lf_affectedRows f = Some n.
Proof. by destruct 1. Qed.

Lemma todo_told_le (this : BQMigration) (n : Z) (f : LockFrame) :
  told this n f -> (todo f <= 2)%nat.
Proof. destruct 1; unfold todo; simpl; lia. Qed.


Lemma race_step_inv (this : BQMigration) (act : Action) (sched : list Action) (s : Race) :
  faults (world s) = [] ->
  RaceInv this (elapsed (act :: sched)) s ->
  faults (world (race_step this s act)) = []
  /\ RaceInv this (elapsed sched) (race_step this s act)
  /\ todo (callA (race_step this s act)) = (todo (callA s) - spent true act)%nat
  /\ todo (callB (race_step this s act)) = (todo (callB s) - spent false act)%nat.
Proof.
  intros Hf Hinv. pose proof (elapsed_nonneg sched) as Hnn.
  destruct s as [fa fb w]. simpl in *.
  destruct act as [| |d]; simpl in *.
  - (* caller A steps *)
    destruct Hinv as [t0 HA HB Ht Hb|t1 HA HB Ht Hb|t1 HA HB Ht Hb|HA HB|HA HB];
      simpl in *; subst.
    + destruct (lock_step_fresh this w _ Hf Ht) as (w' & -> & Ht' & Hf' & Hn'). simpl in *.
      split; [done|]. split; [|solve_todo].
      eapply inv_A; simpl; [constructor|done|exact Ht'|]. rewrite Hn'. lia.
    + destruct (lock_step_told this 1 fa w HA Hf) as (f' & w' & -> & Hto & Htd & Ht' & Hf' & Hn').
      simpl. split; [done|]. split; [|solve_todo].
      eapply inv_A; simpl; [done|done|by rewrite Ht'|]. rewrite Hn'. lia.
    + destruct (lock_step_fresh this w _ Hf Ht) as (w' & -> & Ht' & Hf' & Hn'). simpl in *.
      assert (lock_where (now_of this w) (migrationLockExpirationTime this) (mkLock true t1)
              = false) as Hw.
      { unfold lock_where, DATETIME_DIFF. simpl. apply Z.leb_gt. lia. }
      rewrite Hw. split; [done|]. split; [|solve_todo].
      apply inv_BA; simpl; [constructor|done].
    + destruct (lock_step_told this 1 fa w HA Hf) as (f' & w' & -> & Hto & Htd & Ht' & Hf' & Hn').
      simpl. split; [done|]. split; [|solve_todo]. by apply inv_AB.
    + destruct (lock_step_told this 0 fa w HA Hf) as (f' & w' & -> & Hto & Htd & Ht' & Hf' & Hn').
      simpl. split; [done|]. split; [|solve_todo]. by apply inv_BA.
  - (* caller B steps *)
    destruct Hinv as [t0 HA HB Ht Hb|t1 HA HB Ht Hb|t1 HA HB Ht Hb|HA HB|HA HB];
      simpl in *; subst.
    + destruct (lock_step_fresh this w _ Hf Ht) as (w' & -> & Ht' & Hf' & Hn'). simpl in *.
      split; [done|]. split; [|solve_todo].
      eapply inv_B; simpl; [done|constructor|exact Ht'|]. rewrite Hn'. lia.
    + destruct (lock_step_fresh this w _ Hf Ht) as (w' & -> & Ht' & Hf' & Hn'). simpl in *.
      assert (lock_where (now_of this w) (migrationLockExpirationTime this) (mkLock true t1)
              = false) as Hw.
      { unfold lock_where, DATETIME_DIFF. simpl. apply Z.leb_gt. lia. }
      rewrite Hw. split; [done|]. split; [|solve_todo].
      apply inv_AB; simpl; [done|constructor].
    + destruct (lock_step_told this 1 fb w HB Hf) as (f' & w' & -> & Hto & Htd & Ht' & Hf' & Hn').
      simpl. split; [done|]. split; [|solve_todo].
      eapply inv_B; simpl; [done|done|by rewrite Ht'|]. rewrite Hn'. lia.
    + destruct (lock_step_told this 0 fb w HB Hf) as (f' & w' & -> & Hto & Htd & Ht' & Hf' & Hn').
      simpl. split; [done|]. split; [|solve_todo]. by apply inv_AB.
    + destruct (lock_step_told this 1 fb w HB Hf) as (f' & w' & -> & Hto & Htd & Ht' & Hf' & Hn').
      simpl. split; [done|]. split; [|solve_todo]. by apply inv_BA.
  - (* time passes *)
    split; [done|]. split; [|solve_todo].
    destruct Hinv as [t0 HA HB Ht Hb|t1 HA HB Ht Hb|t1 HA HB Ht Hb|HA HB|HA HB];
      simpl in *.
    + eapply inv_none; simpl; eauto. lia.
    + eapply inv_A; simpl; eauto. unfold now_of, CURRENT_DATETIME in *. simpl. lia.
    + eapply inv_B; simpl; eauto. unfold now_of, CURRENT_DATETIME in *. simpl. lia.
    + by apply inv_AB.
    + by apply inv_BA.
Qed.

Lemma race_run_inv (this : BQMigration) (sched : list Action) (s : Race) :
  faults (world s) = [] ->
  RaceInv this (elapsed sched) s ->
  RaceInv this 0 (race_run this sched s)
  /\ todo (callA (race_run this sched s)) = (todo (callA s) - steps_of true sched)%nat
  /\ todo (callB (race_run this sched s)) = (todo (callB s) - steps_of false sched)%nat.
Proof.
  revert s. induction sched as [|act sched IH]; intros s Hf Hinv.
  - simpl. repeat split; [done|lia|lia].
  - destruct (race_step_inv this act sched s Hf Hinv) as (Hf' & Hinv' & HA & HB).
    destruct (IH _ Hf' Hinv') as (Hfin & HA' & HB'). simpl race_run.
    split; [done|]. rewrite HA', HB', HA, HB.
    destruct act; unfold spent; simpl steps_of; lia.
Qed.

(** Three steps of a call, taken without interruption, are the method
    itself: same completion, same world, whatever the world. *)
Lemma lock_steps_lockMigration (this : BQMigration) (w : World) :
  lf_result (fst (lock_steps this 3 frame0 w)) = Some (fst (lockMigration this w))
  /\ snd (lock_steps this 3 frame0 w) = snd (lockMigration this w).
Proof.
  assert (let '(f, w') := lock_steps this 3 frame0 w in
          lf_result f = Some (fst (lockMigration this w)) /\ w' = snd (lockMigration this w))
    as H.
  { unfold lockMigration, bind. simpl. unfold lock_step at 1. simpl.
    destruct (createQueryJob_cases (bigquery this) (lock_stmt this) w)
      as [(n & w1 & ->)|(w1 & ->)]; [|done].
    unfold lock_step at 1. simpl.
    destruct (getMetadata_cases (mkJob (lock_stmt this) n) w1) as [(w2 & ->)|(w2 & ->)];
      [|done].
    simpl. unfold lock_step. simpl.
    by destruct (if n =? 0 then _ else _) as [r w3]. }
  by destruct (lock_steps this 3 frame0 w) as [f w'].
Qed.

(** On one unlocked row and with a positive expiry, a first call of the
    method takes the lock and a second call right after it is refused. *)
Lemma lockMigration_twice (this : BQMigration) (w : World) (t0 : Z) :
  faults w = [] ->
  tables w !! lock_id this = Some (LockTable [mkLock false t0]) ->
  0 < migrationLockExpirationTime this ->
  fst (lockMigration this w) = Ok tt
  /\ fst (lockMigration this (snd (lockMigration this w))) = Throw (lock_failed this).
Proof.
  intros Hf Ht Hexp.
  pose proof (lockMigration_run this w [mkLock false t0] Hf Ht) as H1. cbv zeta in H1.
  change (sql_count _ [mkLock false t0] =? 0) with false in H1. cbv iota in H1.
  rewrite H1. split; [done|]. cbn [snd].
  match goal with |- context [lockMigration this ?W] => set (w1 := W) end.
  assert (tables w1 !! lock_id this
          = Some (LockTable [mkLock true (CURRENT_DATETIME (timezone this) w)])) as Ht1
    by (simpl; apply lookup_insert_eq).
  pose proof (lockMigration_run this w1 _ Hf Ht1) as H2. cbv zeta in H2.
  assert (sql_count
            (lock_where (CURRENT_DATETIME (timezone this) w1) (migrationLockExpirationTime this))
            [mkLock true (CURRENT_DATETIME (timezone this) w)] = 0) as Hz.
  { apply sql_count_zero. intros r [<- | []].
    unfold lock_where, DATETIME_DIFF. simpl. apply Z.leb_gt.
    change (CURRENT_DATETIME (timezone this) w1) with (CURRENT_DATETIME (timezone this) w).
    lia. }
  rewrite Hz in H2. by rewrite H2.
Qed.

(** C10: two calls of [lockMigration] race on one unlocked row, their steps
    interleaved in any order while less time than the expiry passes. A step
    of a call runs up to its next [await], and three steps in a row are the
    method. Both calls end, and they end as two calls of the method made one
    after the other do: one was told one affected row and holds the lock,
    the other was told zero rows and threw the lock error. *)
Theorem simultaneous_lock_calls_exclude
    (this : BQMigration) (w : World) (t0 : Z) (sched : list Action) :
  faults w = [] ->
  tables w !! lock_id this = Some (LockTable [mkLock false t0]) ->
  elapsed sched < migrationLockExpirationTime this ->
  (3 <= steps_of true sched)%nat ->
  (3 <= steps_of false sched)%nat ->
  let s := race_run this sched (mkRace frame0 frame0 w) in
  let first := lockMigration this w in
  let second := lockMigration this (snd first) in
  (forall w0 : World,
     lf_result (fst (lock_steps this 3 frame0 w0)) = Some (fst (lockMigration this w0))
     /\ snd (lock_steps this 3 frame0 w0) = snd (lockMigration this w0))
  /\ fst first = Ok tt
  /\ fst second = Throw (lock_failed this)
  /\ ((lf_affectedRows (callA s) = Some 1 /\ lf_result (callA s) = Some (fst first)
       /\ lf_affectedRows (callB s) = Some 0 /\ lf_result (callB s) = Some (fst second))
      \/
      (lf_affectedRows (callB s) = Some 1 /\ lf_result (callB s) = Some (fst first)
       /\ lf_affectedRows (callA s) = Some 0 /\ lf_result (callA s) = Some (fst second))).
Proof.
  intros Hf Ht Hel HA HB s first second.
  split; [intros w0; apply lock_steps_lockMigration|].
  assert (0 < migrationLockExpirationTime this) as Hexp
    by (pose proof (elapsed_nonneg sched); lia).
  destruct (lockMigration_twice this w t0 Hf Ht Hexp) as [H1 H2].
  fold first in H1, H2. fold second in H2.
  split; [exact H1|]. split; [exact H2|]. rewrite H1, H2.
  destruct (race_run_inv this sched (mkRace frame0 frame0 w) Hf) as (Hinv & HtA & HtB).
  { by eapply inv_none. }
  fold s in Hinv, HtA, HtB. simpl in HtA, HtB.
  assert (todo (callA s) = O) as HdA by (unfold todo in *; simpl in *; lia).
  assert (todo (callB s) = O) as HdB by (unfold todo in *; simpl in *; lia).
  destruct Hinv as [t HfA _ _ _|t _ HfB _ _|t HfA _ _ _|HwA HwB|HwA HwB].
  - rewrite HfA in HdA. discriminate.
  - rewrite HfB in HdB. discriminate.
  - rewrite HfA in HdA. discriminate.
  - left. destruct (todo_told_pos _ _ _ HwA HdA) as [-> ->].
    by destruct (todo_told_pos _ _ _ HwB HdB) as [-> ->].
  - right. destruct (todo_told_pos _ _ _ HwA HdA) as [-> ->].
    by destruct (todo_told_pos _ _ _ HwB HdB) as [-> ->].
Qed.

Lemma simultaneous_lock_calls_exclude_witness :
  let w := example_world [mkLock false 0] [] [] [] in
  let s := race_run bqMigration [StepA; StepB; Tick 5; StepB; StepA; StepA; StepB]
             (mkRace frame0 frame0 w) in
  let first := lockMigration bqMigration w in
  let second := lockMigration bqMigration (snd first) in
  (lf_affectedRows (callA s) = Some 1 /\ lf_result (callA s) = Some (fst first)
   /\ lf_affectedRows (callB s) = Some 0 /\ lf_result (callB s) = Some (fst second))
  \/
  (lf_affectedRows (callB s) = Some 1 /\ lf_result (callB s) = Some (fst first)
   /\ lf_affectedRows (callA s) = Some 0 /\ lf_result (callA s) = Some (fst second)).
Proof.
  apply (simultaneous_lock_calls_exclude bqMigration
           (example_world [mkLock false 0] [] [] []) 0).
  - reflexivity.
  - reflexivity.
  - vm_compute. reflexivity.
  - vm_compute. lia.
  - vm_compute. lia.
Defined.

(* ===================================================================== *)
(** ** Rolling back the latest batch *)
(* ===================================================================== *)
Lemma bq_query_run c s w r t :
  faults w = [] -> exec_stmt s w = Some (r, t) ->
  bq_query c s w = (Ok r, with_tables t (with_trace (trace w ++ [EvCall (CQuery s)]) w)).
Proof.
  intros Hf He. unfold bq_query. rewrite api_no_fault by done.
  change (exec_stmt s (with_trace (trace w ++ [EvCall (CQuery s)]) w)) with (exec_stmt s w).
  by rewrite He.
Qed.

Lemma downs_dry_run_bookkeeping this mods files : forall t t',
  downs_dry_run this mods files t = Some t' ->
  t' !! ledger_id this = t !! ledger_id this /\ t' !! lock_id this = t !! lock_id this.
Proof.
  induction files as [|f files IH]; intros t t'; simpl.
  - by intros [= ->].
  - destruct (mods !! _) as [m|]; [|done].
    destruct (down m _ _ t) as [[[]|e] t1]; [|done].
    destruct (same_bookkeeping this t t1) eqn:Hs; [|done].
    intros H. destruct (IH _ _ H) as [H1 H2]. rewrite H1, H2.
    unfold same_bookkeeping in Hs. apply andb_prop in Hs as [Ha Hb].
    apply bool_decide_eq_true in Ha, Hb. done.
Qed.

Lemma rollback_loop_run this latest : forall files acc w t',
  downs_dry_run this (modules w)
    (List.filter (fun f => includes latest (path_parse_name f)) files) (tables w) = Some t' ->
  rollback_loop this latest files acc w =
  (Ok (acc ++ map path_parse_name
                (List.filter (fun f => includes latest (path_parse_name f)) files)),
   with_tables t'
     (with_trace
        (trace w ++ down_events this
                      (List.filter (fun f => includes latest (path_parse_name f)) files))
        w)).
Proof.
  induction files as [|f files IH]; intros acc w t'; simpl.
  - intros [= <-]. unfold ret. destruct w; unfold with_tables, with_trace; simpl.
    by rewrite !app_nil_r.
  - destruct (includes latest (path_parse_name f)) eqn:Hsel; [|apply IH].
    simpl. destruct (modules w !! _) as [m|] eqn:Hm; [|done].
    destruct (down m _ _ (tables w)) as [[[]|e] t1] eqn:Hd; [|done].
    destruct (same_bookkeeping this (tables w) t1); [|done].
    intros Hrest. unfold bind, require, call_down. rewrite Hm. simpl. rewrite Hd.
    rewrite (IH _ _ t') by exact Hrest.
    unfold with_tables, with_trace. simpl. by rewrite <- !app_assoc.
Qed.

Lemma downs_of_down_events this files : downs_of (down_events this files) = files.
Proof. induction files as [|f files IH]; simpl; [done|]. by rewrite IH. Qed.

Lemma ups_of_down_events this files : ups_of (down_events this files) = [].
Proof. induction files as [|f files IH]; simpl; done. Qed.

Lemma sql_max_ge (l : list Z) (x m : Z) :
  fold_left Z.max l x = m -> x <= m /\ Forall (fun y => y <= m) l.
Proof.
  revert x. induction l as [|a l IH]; intros x; simpl.
  - intros <-. split; [lia|constructor].
  - intros H. destruct (IH _ H) as [H1 H2]. split; [lia|]. constructor; [lia|done].
Qed.

Lemma fold_max_lt (l : list Z) (x c : Z) :
  x < c -> Forall (fun y => y < c) l -> fold_left Z.max l x < c.
Proof.
  revert x. induction l as [|a l IH]; intros x Hx Hl; simpl; [done|].
  apply Forall_cons in Hl as [Ha Hl]. apply IH; [lia|done].
Qed.

Lemma max_batch_bounds (rows : list MigrationRecord) :
  Forall (fun r => 0 < mr_batch r < 2 ^ 53) rows -> rows <> [] ->
  0 < max_batch rows < 2 ^ 53.
Proof.
  intros Hsafe Hne. destruct rows as [|r rows]; [done|].
  apply Forall_cons in Hsafe as [Hr Hsafe]. unfold max_batch. simpl. split.
  - destruct (sql_max_ge (map mr_batch rows) (mr_batch r) _ eq_refl) as [H _]. lia.
  - apply fold_max_lt; [lia|]. apply List.Forall_map.
    eapply List.Forall_impl; [|exact Hsafe]. simpl. lia.
Qed.

(** On a ledger of batch numbers below [2 ^ 53], what the code reads as
    the current batch is the highest batch number. *)
Lemma current_batch_exact (rows : list MigrationRecord) :
  Forall (fun r => 0 < mr_batch r < 2 ^ 53) rows -> current_batch rows = max_batch rows.
Proof.
  intros Hsafe. destruct rows as [|r rows]; [done|].
  pose proof (max_batch_bounds (r :: rows) Hsafe ltac:(done)) as Hb.
  unfold current_batch, max_batch in *. simpl in *.
  apply to_double_exact. lia.
Qed.

Lemma current_batch_pos (rows : list MigrationRecord) :
  Forall (fun r => 0 < mr_batch r < 2 ^ 53) rows -> rows <> [] -> 0 < current_batch rows.
Proof.
  intros Hsafe Hne. rewrite current_batch_exact by done.
  by apply max_batch_bounds.
Qed.

Lemma current_batch_abs (rows : list MigrationRecord) :
  Forall (fun r => 0 < mr_batch r < 2 ^ 53) rows -> Z.abs (current_batch rows) <= 2 ^ 53.
Proof.
  intros Hsafe. destruct rows as [|r rows]; [by vm_compute|].
  rewrite current_batch_exact by done.
  pose proof (max_batch_bounds (r :: rows) Hsafe ltac:(done)). lia.
Qed.

Lemma includes_batch_names (rows : list MigrationRecord) (b : Z) (n : string) :
  includes (map mr_name (List.filter (batch_where (Some b)) rows)) n = in_batch rows b n.
Proof.
  unfold includes, in_batch. induction rows as [|r rows IH]; simpl; [done|].
  destruct (mr_batch r =? b); simpl.
  - by rewrite IH, andb_true_r.
  - by rewrite IH, andb_false_r.
Qed.

(** The names read back for the current batch select the same scripts as
    the ledger rows of that batch. *)
Lemma latest_batch_names (rows : list MigrationRecord) (n : string) :
  Forall (fun r => 0 < mr_batch r < 2 ^ 53) rows ->
  includes (map mr_name
              (List.filter (batch_where (batch_clause (Some (current_batch rows)))) rows)) n
  = in_batch rows (current_batch rows) n.
Proof.
  intros Hsafe. destruct rows as [|r rows]; [done|].
  pose proof (current_batch_pos (r :: rows) Hsafe ltac:(done)) as Hcur.
  rewrite batch_clause_exact; [|lia|by apply current_batch_abs].
  apply includes_batch_names.
Qed.

Lemma filter_ext_bool {A} (p q : A -> bool) (l : list A) :
  (forall x, p x = q x) -> List.filter p l = List.filter q l.
Proof. intros H. induction l as [|a l IH]; simpl; [done|]. by rewrite H, IH. Qed.

Lemma filter_all {A} (p : A -> bool) (l : list A) :
  (forall x, p x = true) -> List.filter p l = l.
Proof. intros H. induction l as [|a l IH]; simpl; [done|]. by rewrite H, IH. Qed.

Lemma sql_count_lock_then_unlock now expiry (rows : list LockRecord) :
  sql_count (lock_where now expiry) rows <> 0 ->
  sql_count unlock_where (sql_update (lock_where now expiry) (lock_set now) rows) <> 0.
Proof.
  unfold sql_count, sql_update. induction rows as [|r rows IH]; simpl; [done|].
  destruct (lock_where now expiry r); simpl; [lia|].
  intros H. destruct (unlock_where r); simpl; [lia|]. by apply IH.
Qed.

Lemma rollback_targets_elem rows entries f :
  f ∈ rollback_targets rows entries <->
  f ∈ catalog entries
  /\ exists r, r ∈ rows /\ mr_name r = path_parse_name f /\ mr_batch r = current_batch rows.
Proof.
  unfold rollback_targets. rewrite !list_elem_of_In, filter_In. unfold in_batch.
  rewrite existsb_exists. split.
  - intros [Hc (r & Hr & Hb)]. split; [done|]. exists r.
    apply andb_prop in Hb as [Hn Hb]. apply String.eqb_eq in Hn. apply Z.eqb_eq in Hb.
    by rewrite list_elem_of_In.
  - intros [Hc (r & Hr & Hn & Hb)]. split; [done|]. exists r.
    rewrite <- list_elem_of_In. split; [done|].
    rewrite Hn, Hb, String.eqb_refl, Z.eqb_refl. done.
Qed.

Lemma StronglySorted_filter {A} (R : A -> A -> Prop) (p : A -> bool) (l : list A) :
  StronglySorted R l -> StronglySorted R (List.filter p l).
Proof.
  induction 1 as [|a l Hs IH Ha]; simpl; [constructor|].
  destruct (p a); [|done]. constructor; [done|].
  rewrite List.Forall_forall in *. intros x Hx. apply Ha.
  apply filter_In in Hx. tauto.
Qed.

Lemma delete_keeps_other_batches (names : list string) (b : Z) (rows : list MigrationRecord) :
  List.filter (fun r => negb (mr_batch r =? b))
    (List.filter (fun r => negb (name_in names (mr_name r) && (mr_batch r =? b))) rows)
  = List.filter (fun r => negb (mr_batch r =? b)) rows.
Proof.
  induction rows as [|r rows IH]; simpl; [done|].
  destruct (mr_batch r =? b) eqn:Hb; simpl.
  - destruct (name_in names (mr_name r)); simpl; rewrite ?Hb; simpl; exact IH.
  - rewrite andb_false_r. simpl. rewrite Hb. simpl. by rewrite IH.
Qed.

(** C3: with a working client, a lock it can take, a ledger of positive
    batch numbers below [2 ^ 53] (those a number of the runtime holds
    exactly), target scripts whose names are plain between single quotes,
    and [down]s that complete without touching the bookkeeping tables,
    [rollbackMigrations] runs the [down] of exactly the catalog scripts
    recorded under the highest batch, in ascending file order, deletes the
    ledger rows that carry one of these names and that batch, leaves the
    rows of every other batch as they were, and releases the lock. *)
Theorem rollbackMigrations_spec
    (this : BQMigration) (w : World) (lockRows : list LockRecord)
    (rows : list MigrationRecord) (entries : list string) :
  let now := CURRENT_DATETIME (timezone this) w in
  let expiry := migrationLockExpirationTime this in
  let locked := sql_update (lock_where now expiry) (lock_set now) lockRows in
  let targets := rollback_targets rows entries in
  let executed := map path_parse_name targets in
  let cur := current_batch rows in
  faults w = [] ->
  tables w !! lock_id this = Some (LockTable lockRows) ->
  sql_count (lock_where now expiry) lockRows <> 0 ->
  tables w !! ledger_id this = Some (LedgerTable rows) ->
  Forall (fun r => 0 < mr_batch r < 2 ^ 53) rows ->
  dirs w !! migrationsDir this = Some entries ->
  forallb plain_literal executed = true ->
  is_Some (downs_dry_run this (modules w) targets
             (<[lock_id this := LockTable locked]> (tables w))) ->
  exists w',
    rollbackMigrations this w = (Ok tt, w')
    /\ cur = max_batch rows
    /\ downs_of (trace w') = downs_of (trace w) ++ targets
    /\ ups_of (trace w') = ups_of (trace w)
    /\ StronglySorted String.le targets
    /\ (forall f, f ∈ targets <->
          f ∈ catalog entries
          /\ exists r, r ∈ rows /\ mr_name r = path_parse_name f /\ mr_batch r = cur)
    /\ tables w' !! ledger_id this =
       Some (LedgerTable
               (List.filter (fun r => negb (name_in executed (mr_name r) && (mr_batch r =? cur)))
                  rows))
    /\ (forall rows', tables w' !! ledger_id this = Some (LedgerTable rows') ->
          List.filter (fun r => negb (mr_batch r =? cur)) rows'
          = List.filter (fun r => negb (mr_batch r =? cur)) rows)
    /\ tables w' !! lock_id this =
       Some (LockTable (sql_update unlock_where unlock_set locked)).
Proof.
  intros now expiry locked targets executed cur Hf Hlock Hacq Hledger Hpos Hdir Hplain Hdry.
  destruct Hdry as [t2 Hdry].
  assert (lock_id this <> ledger_id this) as Hne.
  { intros Heq. rewrite Heq, Hledger in Hlock. discriminate. }
  destruct (downs_dry_run_bookkeeping _ _ _ _ _ Hdry) as [Hb1 Hb2].
  rewrite lookup_insert_ne in Hb1 by done. rewrite lookup_insert_eq in Hb2.
  rewrite Hledger in Hb1.
  (* the try block *)
  assert (exists w1,
    rollback_try this w = (Ok tt, w1)
    /\ faults w1 = []
    /\ downs_of (trace w1) = downs_of (trace w) ++ targets
    /\ ups_of (trace w1) = ups_of (trace w)
    /\ tables w1 !! ledger_id this =
       Some (LedgerTable
               (List.filter (fun r => negb (name_in executed (mr_name r) && (mr_batch r =? cur)))
                  rows))
    /\ tables w1 !! lock_id this = Some (LockTable locked)) as (w1 & Htry & Hf1 & Hd1 & Hu1 & Hl1 & Hk1).
  { unfold rollback_try. unfold bind at 1.
    pose proof (lockMigration_run this w lockRows Hf Hlock) as Hrun. simpl in Hrun.
    fold now expiry in Hrun. rewrite (proj2 (Z.eqb_neq _ _) Hacq) in Hrun. rewrite Hrun.
    clear Hrun. fold locked.
    unfold bind at 1. unfold getMigrationFiles, bind at 1, readdir. simpl. rewrite Hdir.
    unfold ret at 1. fold (catalog entries).
    match goal with |- context [bind _ _ ?W] => set (wb := W) end.
    assert (tables wb !! ledger_id this = Some (LedgerTable rows)) as Hlb.
    { simpl. by rewrite lookup_insert_ne. }
    unfold bind at 1.
    rewrite (bq_query_run _ _ wb (RMax (sql_max (map mr_batch rows))) (tables wb));
      [|done|unfold exec_stmt; simpl stmt_table; by rewrite Hlb].
    change (number_or_zero (RMax (sql_max (map mr_batch rows)))) with cur.
    match goal with |- context [bind _ _ ?W] => set (wc := W) end.
    unfold bind at 1. unfold getAppliedMigrations, bind at 1.
    rewrite (bq_query_run _ _ wc
               (RNames (map mr_name (List.filter (batch_where (batch_clause (Some cur))) rows)))
               (tables wc));
      [|done|unfold exec_stmt; simpl stmt_table;
             change (tables wc) with (tables wb); by rewrite Hlb].
    unfold ret at 1.
    match goal with |- context [bind _ _ ?W] => set (wd := W) end.
    assert (List.filter
              (fun f => includes
                          (map mr_name
                             (List.filter (batch_where (batch_clause (Some cur))) rows))
                          (path_parse_name f)) (catalog entries) = targets) as Hsel.
    { apply filter_ext_bool. intros f. by apply latest_batch_names. }
    unfold bind at 1. rewrite (rollback_loop_run this _ (catalog entries) [] wd t2);
      [|rewrite Hsel; exact Hdry].
    rewrite Hsel. simpl app. fold executed.
    match goal with |- context [rollback_record _ _ _ ?W] => set (we := W) end.
    assert (downs_of (trace we) = downs_of (trace w) ++ targets) as Hde.
    { simpl. unfold downs_of. rewrite !omap_app. simpl. rewrite !app_nil_r.
      f_equal. apply downs_of_down_events. }
    assert (ups_of (trace we) = ups_of (trace w)) as Hue.
    { simpl. unfold ups_of. rewrite !omap_app. simpl. rewrite !app_nil_r.
      rewrite <- (app_nil_r (omap _ (trace w))) at 2. f_equal. apply ups_of_down_events. }
    assert (faults we = []) as Hfe by exact Hf.
    assert (tables we = t2) as Hte by reflexivity.
    clearbody we. clear wb wc wd Hlb.
    unfold rollback_record.
    destruct (length executed =? 0)%nat eqn:Hlen.
    - apply Nat.eqb_eq in Hlen. apply length_zero_iff_nil in Hlen.
      eexists. split; [reflexivity|]. simpl. rewrite Hte.
      split; [done|]. unfold downs_of, ups_of in *. rewrite !omap_app. simpl.
      rewrite !app_nil_r. split; [exact Hde|]. split; [exact Hue|].
      split; [|done]. rewrite Hb1. f_equal. f_equal. symmetry. apply filter_all.
      intros r. by rewrite Hlen.
    - unfold bind.
      rewrite (delete_stmt_plain this executed cur Hplain (current_batch_abs rows Hpos)).
      rewrite (bq_query_run _ _ we
                 (RDml (sql_count (delete_where executed cur) rows))
                 (<[ledger_id this :=
                      LedgerTable (List.filter (fun r => negb (delete_where executed cur r)) rows)]>
                    t2));
        [|done|unfold exec_stmt; simpl stmt_table; rewrite Hte; by rewrite Hb1].
      eexists. split; [reflexivity|]. simpl.
      split; [done|]. unfold downs_of, ups_of in *. rewrite !omap_app. simpl.
      rewrite !app_nil_r. split; [exact Hde|]. split; [exact Hue|].
      rewrite lookup_insert_eq, lookup_insert_ne by done. done. }
  (* the release *)
  rewrite rollbackMigrations_unfold, Htry. simpl logged.
  unfold unlockMigration, bind.
  rewrite (createQueryJob_unlock this w1 locked Hf1 Hk1).
  rewrite getMetadata_no_fault by done. simpl.
  pose proof (sql_count_lock_then_unlock now expiry lockRows Hacq) as Hcnt. fold locked in Hcnt.
  rewrite (proj2 (Z.eqb_neq _ _) Hcnt).
  eexists. split; [reflexivity|]. simpl.
  split; [by apply current_batch_exact|].
  unfold downs_of, ups_of in *. rewrite !omap_app. simpl. rewrite !app_nil_r.
  split; [exact Hd1|]. split; [exact Hu1|].
  split; [apply StronglySorted_filter, catalog_sorted|].
  split; [intros f; apply rollback_targets_elem|].
  rewrite lookup_insert_ne by done. rewrite lookup_insert_eq.
  split; [exact Hl1|]. split; [|done].
  rewrite Hl1. intros rows' [= <-]. apply delete_keeps_other_batches.
Qed.


Lemma rollbackMigrations_spec_witness :
  exists w',
    rollbackMigrations bqMigration example_rollback_world = (Ok tt, w')
    /\ downs_of (trace w') = ["002_person.js"]
    /\ tables w' !! ledger_id bqMigration = Some (LedgerTable [mkMigration "001_init" 1 900])
    /\ tables w' !! lock_id bqMigration = Some (LockTable [mkLock false 1000]).
Proof.
  destruct (rollbackMigrations_spec bqMigration example_rollback_world
              [mkLock false 0]
              [mkMigration "001_init" 1 900; mkMigration "002_person" 2 950]
              ["002_person.js"; "001_init.js"])
    as (w' & Hrun & _ & Hdowns & _ & _ & _ & Hledger & _ & Hlock).
  - reflexivity.
  - reflexivity.
  - vm_compute. discriminate.
  - reflexivity.
  - repeat constructor.
  - reflexivity.
  - reflexivity.
  - apply (bool_decide_unpack _). vm_compute. exact I.
  - exists w'. split; [exact Hrun|]. split; [exact Hdowns|]. split; [exact Hledger|exact Hlock].
Defined.

(* ===================================================================== *)
(** ** A run, from the lock on *)
(* ===================================================================== *)

Lemma ups_dry_run_bookkeeping this mods files : forall t t',
  ups_dry_run this mods files t = Some t' ->
  t' !! ledger_id this = t !! ledger_id this /\ t' !! lock_id this = t !! lock_id this.
Proof.
  induction files as [|f files IH]; intros t t'; simpl.
  - by intros [= ->].
  - destruct (mods !! _) as [m|]; [|done].
    destruct (up m _ _ t) as [[[]|e] t1]; [|done].
    destruct (same_bookkeeping this t t1) eqn:Hs; [|done].
    intros H. destruct (IH _ _ H) as [H1 H2]. rewrite H1, H2.
    unfold same_bookkeeping in Hs. apply andb_prop in Hs as [Ha Hb].
    apply bool_decide_eq_true in Ha, Hb. done.
Qed.

Lemma run_loop_run this applied : forall files acc w t',
  ups_dry_run this (modules w)
    (List.filter (fun f => negb (includes applied (path_parse_name f))) files) (tables w)
    = Some t' ->
  run_loop this applied files acc w =
  (Ok (acc ++ map path_parse_name
                (List.filter (fun f => negb (includes applied (path_parse_name f))) files)),
   with_tables t'
     (with_trace
        (trace w ++ up_events this
                      (List.filter (fun f => negb (includes applied (path_parse_name f))) files))
        w)).
Proof.
  induction files as [|f files IH]; intros acc w t'; simpl.
  - intros [= <-]. unfold ret. destruct w; unfold with_tables, with_trace; simpl.
    by rewrite !app_nil_r.
  - destruct (includes applied (path_parse_name f)) eqn:Hsel; simpl; [apply IH|].
    destruct (modules w !! _) as [m|] eqn:Hm; [|done].
    destruct (up m _ _ (tables w)) as [[[]|e] t1] eqn:Hd; [|done].
    destruct (same_bookkeeping this (tables w) t1); [|done].
    intros Hrest. unfold bind, require, call_up. rewrite Hm. simpl. rewrite Hd.
    rewrite (IH _ _ t') by exact Hrest.
    unfold with_tables, with_trace. simpl. by rewrite <- !app_assoc.
Qed.

Lemma ups_of_up_events this files : ups_of (up_events this files) = files.
Proof. induction files as [|f files IH]; simpl; [done|]. by rewrite IH. Qed.

Lemma calls_of_up_events this files : calls_of (up_events this files) = [].
Proof. induction files as [|f files IH]; simpl; done. Qed.

(** X18: from the lock on, a run calls the [up] of exactly the pending
    scripts, in catalog order; if there is one, the bookkeeping then stops
    at the unbound identifier: no statement follows and the ledger is as
    before. *)
Lemma run_locked_runs_pending_records_nothing
    (this : BQMigration) (w : World) (lockRows : list LockRecord)
    (rows : list MigrationRecord) (entries : list string) :
  let now := CURRENT_DATETIME (timezone this) w in
  let expiry := migrationLockExpirationTime this in
  let locked := sql_update (lock_where now expiry) (lock_set now) lockRows in
  faults w = [] ->
  tables w !! lock_id this = Some (LockTable lockRows) ->
  sql_count (lock_where now expiry) lockRows <> 0 ->
  tables w !! ledger_id this = Some (LedgerTable rows) ->
  dirs w !! migrationsDir this = Some entries ->
  is_Some (ups_dry_run this (modules w) (pending rows entries)
             (<[lock_id this := LockTable locked]> (tables w))) ->
  exists w',
    run_locked this w =
      (match pending rows entries with
       | [] => Ok tt
       | _ :: _ => Throw (ReferenceError "bigquery")
       end, w')
    /\ ups_of (trace w') = ups_of (trace w) ++ pending rows entries
    /\ calls_of (trace w') =
       calls_of (trace w) ++ [CQueryJob (lock_stmt this); CGetMetadata (lock_stmt this);
                              CQuery (SelectNames (ledger_id this) None)]
    /\ tables w' !! ledger_id this = Some (LedgerTable rows).
Proof.
  intros now expiry locked Hf Hlock Hacq Hledger Hdir [t2 Hdry].
  assert (lock_id this <> ledger_id this) as Hne.
  { intros Heq. rewrite Heq, Hledger in Hlock. discriminate. }
  destruct (ups_dry_run_bookkeeping _ _ _ _ _ Hdry) as [Hb1 _].
  rewrite lookup_insert_ne in Hb1 by done. rewrite Hledger in Hb1.
  unfold run_locked. unfold bind at 1.
  pose proof (lockMigration_run this w lockRows Hf Hlock) as Hrun. simpl in Hrun.
  fold now expiry in Hrun. rewrite (proj2 (Z.eqb_neq _ _) Hacq) in Hrun. rewrite Hrun.
  clear Hrun. fold locked.
  match goal with |- context [bind _ _ ?W] => set (wb := W) end.
  assert (tables wb !! ledger_id this = Some (LedgerTable rows)) as Hlb.
  { simpl. by rewrite lookup_insert_ne. }
  unfold bind at 1. unfold getAppliedMigrations, bind at 1.
  rewrite (bq_query_run _ _ wb (RNames (map mr_name (List.filter (batch_where None) rows)))
             (tables wb));
    [|done|unfold exec_stmt; simpl stmt_table; by rewrite Hlb].
  rewrite (filter_all (batch_where None) rows) by done.
  unfold ret at 1.
  unfold bind at 1. unfold getMigrationFiles, bind at 1, readdir. simpl dirs. rewrite Hdir.
  unfold ret at 1. fold (catalog entries).
  match goal with |- context [bind _ _ ?W] => set (wd := W) end.
  unfold bind at 1.
  rewrite (run_loop_run this _ (catalog entries) [] wd t2) by exact Hdry.
  fold (pending rows entries). simpl app.
  match goal with |- context [run_record _ _ ?W] => set (we := W) end.
  assert (ups_of (trace we) = ups_of (trace w) ++ pending rows entries) as Hue.
  { simpl. unfold ups_of. rewrite !omap_app. simpl. rewrite !app_nil_r.
    f_equal. apply ups_of_up_events. }
  assert (calls_of (trace we) =
          calls_of (trace w) ++ [CQueryJob (lock_stmt this); CGetMetadata (lock_stmt this);
                                 CQuery (SelectNames (ledger_id this) None)]) as Hce.
  { simpl. unfold calls_of. rewrite !omap_app. simpl.
    fold (calls_of (up_events this (pending rows entries))).
    rewrite calls_of_up_events, !app_nil_r, <- !app_assoc. done. }
  assert (tables we = t2) as Hte by reflexivity.
  clearbody we. clear wb wd Hlb.
  destruct (pending rows entries) as [|f fs] eqn:Hp.
  - eexists. split; [reflexivity|]. simpl. rewrite Hte.
    unfold ups_of, calls_of in *. rewrite !omap_app. simpl. rewrite !app_nil_r.
    split; [|split]; [by rewrite Hue, app_nil_r|exact Hce|exact Hb1].
  - exists we. split; [reflexivity|]. rewrite Hte. done.
Qed.

(* ===================================================================== *)
(** ** The constructor *)
(* ===================================================================== *)

Lemma or_string_nonempty x d : d <> "" -> or_string x d <> "".
Proof. intros Hd. destruct x as [[|a s]|]; simpl; done. Qed.

(** X1: an instance keeps the client and the dataset id of its
    configuration; its lock expiry is the configured number, whatever its
    sign, unless that is missing or 0, where it is 30; and its table names,
    its directory and its time zone are never empty. *)
Theorem constructor_defaults (dirname : string) (config : RawConfig) :
  let this := constructor dirname config in
  migrationLockExpirationTime this =
    match config_migrationLockExpirationTime config with
    | None | Some 0 => 30
    | Some n => n
    end
  /\ migrationLockExpirationTime this <> 0
  /\ migrationTableName this <> ""
  /\ migrationLockTableName this <> ""
  /\ migrationsDir this <> ""
  /\ timezone this <> ""
  /\ bigquery this = config_bigquery config
  /\ datasetId this = config_datasetId config.
Proof.
  unfold constructor. simpl.
  split; [by destruct (config_migrationLockExpirationTime config) as [[| |]|]|].
  split; [by destruct (config_migrationLockExpirationTime config) as [[| |]|]|].
  split; [by apply or_string_nonempty|].
  split; [by apply or_string_nonempty|].
  split; [apply or_string_nonempty; unfold path_join; by destruct dirname|].
  split; [by apply or_string_nonempty|]. done.
Qed.

(* ===================================================================== *)
(** ** Provisioning the migration table *)
(* ===================================================================== *)

Lemma createMigrationTable_run (this : BQMigration) (w : World) :
  faults w = [] ->
  createMigrationTable this w =
  match tables w !! ledger_id this with
  | Some _ => (Ok tt, with_trace (trace w ++ [EvCall (CExists (ledger_id this))]) w)
  | None =>
      (Ok tt,
       with_trace
         (trace w ++ [EvCall (CExists (ledger_id this));
                      EvCall (CCreateTable (ledger_id this) migrationSchema);
                      EvInfo ("Created " +:+ migrationTableName this +:+ " table.")])
         (with_tables (<[ledger_id this := LedgerTable []]> (tables w)) w))
  end.
Proof.
  intros Hf. unfold createMigrationTable, bind, table_exists.
  rewrite api_no_fault by done. simpl.
  destruct (tables w !! ledger_id this) as [T|] eqn:Hl;
    pose proof Hl as Hl'; unfold ledger_id, TableId in Hl'; rewrite Hl'.
  - rewrite bool_decide_eq_true_2 by eauto. reflexivity.
  - rewrite bool_decide_eq_false_2 by (apply is_Some_None). simpl.
    unfold createTable. rewrite api_no_fault by done. simpl.
    rewrite Hl'. unfold console_info, emit, with_trace, with_tables. simpl.
    by rewrite <- !app_assoc.
Qed.

(** X2: when no client call rejects, [createMigrationTable] resolves, leaves
    a table that was already there as it is and otherwise creates an empty
    migration table, touches no other table, and a second call only checks
    existence and changes nothing. *)
Theorem createMigrationTable_idempotent (this : BQMigration) (w : World) :
  faults w = [] ->
  let '(r1, w1) := createMigrationTable this w in
  r1 = Ok tt
  /\ tables w1 !! ledger_id this
     = Some (default (LedgerTable []) (tables w !! ledger_id this))
  /\ (forall k, k <> ledger_id this -> tables w1 !! k = tables w !! k)
  /\ (let '(r2, w2) := createMigrationTable this w1 in
      r2 = Ok tt /\ tables w2 = tables w1
      /\ calls_of (trace w2) = calls_of (trace w1) ++ [CExists (ledger_id this)]).
Proof.
  intros Hf. rewrite (createMigrationTable_run this w Hf).
  destruct (tables w !! ledger_id this) as [T|] eqn:Hl.
  - split; [done|]. split; [simpl; by rewrite Hl|]. split; [done|].
    rewrite createMigrationTable_run by done. simpl. rewrite Hl.
    split; [done|]. split; [done|]. simpl. unfold calls_of. rewrite !omap_app. reflexivity.
  - split; [done|]. simpl. rewrite lookup_insert_eq. split; [done|].
    split; [intros k Hk; by rewrite lookup_insert_ne|].
    rewrite createMigrationTable_run by done. simpl. rewrite lookup_insert_eq.
    split; [done|]. split; [done|]. simpl. unfold calls_of. rewrite !omap_app. reflexivity.
Qed.

Lemma createMigrationTable_idempotent_witness :
  let '(r1, w1) := createMigrationTable bqMigration
                     (mkWorld ∅ ∅ ∅ 1000 (fun _ => 0) [] [] (fun _ _ => None)) in
  r1 = Ok tt
  /\ tables w1 !! ledger_id bqMigration
     = Some (default (LedgerTable []) ((∅ : Tables) !! ledger_id bqMigration))
  /\ (forall k, k <> ledger_id bqMigration -> tables w1 !! k = (∅ : Tables) !! k)
  /\ (let '(r2, w2) := createMigrationTable bqMigration w1 in
      r2 = Ok tt /\ tables w2 = tables w1
      /\ calls_of (trace w2) = calls_of (trace w1) ++ [CExists (ledger_id bqMigration)]).
Proof.
  exact (createMigrationTable_idempotent bqMigration
           (mkWorld ∅ ∅ ∅ 1000 (fun _ => 0) [] [] (fun _ _ => None)) eq_refl).
Defined.


Section tables_steps.

Context (Q : relation Tables) `{!Reflexive Q, !Transitive Q}.

Lemma st_ret {A : Type} (a : A) : steps_tables Q (ret a).
Proof. intros w. simpl. reflexivity. Qed.

Lemma st_throw {A : Type} (e : JsError) : steps_tables Q (@throw A e).
Proof. intros w. simpl. reflexivity. Qed.

Lemma st_emit (e : Event) : steps_tables Q (emit e).
Proof. intros w. simpl. reflexivity. Qed.

Lemma st_bind {A B : Type} (m : M A) (k : A -> M B) :
  steps_tables Q m -> (forall a, steps_tables Q (k a)) -> steps_tables Q (bind m k).
Proof.
  intros Hm Hk w. unfold bind. specialize (Hm w).
  destruct (m w) as [[a|e] w1]; simpl in *; [|done].
  etransitivity; [exact Hm|apply Hk].
Qed.

Lemma st_api {A : Type} (call : ApiCall) (body : M A) :
  steps_tables Q body -> steps_tables Q (api call body).
Proof.
  intros Hb w. unfold api. simpl. destruct (faults w) as [|[] fs]; simpl.
  - apply (Hb (with_trace _ w)).
  - reflexivity.
  - apply (Hb (with_faults fs (with_trace _ w))).
Qed.

Lemma st_try_catch_finally {A : Type} (body : M A) (handler : JsError -> M A) (fin : M unit) :
  steps_tables Q body -> (forall e, steps_tables Q (handler e)) -> steps_tables Q fin ->
  steps_tables Q (try_catch_finally body handler fin).
Proof.
  intros Hb Hh Hf w. unfold try_catch_finally.
  specialize (Hb w). destruct (body w) as [r1 w1]. simpl in Hb.
  assert (Q (tables w1)
            (tables (snd (match r1 with Ok a => (Ok a, w1) | Throw e => handler e w1 end))))
    as H2.
  { destruct r1 as [a|e]; [reflexivity|apply Hh]. }
  destruct (match r1 with Ok a => (Ok a, w1) | Throw e => handler e w1 end) as [r2 w2].
  simpl in H2. specialize (Hf w2). destruct (fin w2) as [r3 w3]. simpl in Hf.
  destruct r3; simpl; (etransitivity; [exact Hb|]); (etransitivity; [exact H2|exact Hf]).
Qed.

Lemma st_table_exists (c : Client) (ds t : string) : steps_tables Q (table_exists c ds t).
Proof. apply st_api. intros w. simpl. reflexivity. Qed.

Lemma st_getMetadata (j : Job) : steps_tables Q (getMetadata j).
Proof. apply st_api, st_ret. Qed.

Lemma st_readdir (dir : string) : steps_tables Q (readdir dir).
Proof. intros w. unfold readdir. destruct (dirs w !! dir); simpl; reflexivity. Qed.

End tables_steps.

#[local] Instance ledger_added_refl (this : BQMigration) : Reflexive (ledger_added this).
Proof. intros t. by left. Qed.

#[local] Instance ledger_added_trans (this : BQMigration) : Transitive (ledger_added this).
Proof.
  intros t1 t2 t3 [-> | [H1 ->]] [-> | [H2 ->]]; try (by left); try (by right).
  by rewrite lookup_insert_eq in H2.
Qed.

Lemma st_createMigrationTable (this : BQMigration) :
  steps_tables (ledger_added this) (createMigrationTable this).
Proof.
  unfold createMigrationTable. apply st_bind; [apply _|apply st_table_exists; apply _|].
  intros [|]; simpl; [apply st_ret; apply _|].
  apply st_bind; [apply _| |intros _; apply st_emit; apply _].
  apply st_api; [apply _|]. intros w. simpl.
  destruct (tables w !! (datasetId this, migrationTableName this)) eqn:Hl; simpl.
  - by left.
  - right. split; [exact Hl|reflexivity].
Qed.

(** X3: in every world, rejected calls included, [createMigrationTable]
    either leaves the tables as they are or adds the empty migration table
    where there was none; a table that exists is never dropped or
    replaced. *)
Theorem createMigrationTable_only_adds_the_ledger (this : BQMigration) (w : World) :
  ledger_added this (tables w) (tables (snd (createMigrationTable this w)))
  /\ forall (k : TableId) (T : Table),
       tables w !! k = Some T -> tables (snd (createMigrationTable this w)) !! k = Some T.
Proof.
  pose proof (st_createMigrationTable this w) as H. split; [exact H|].
  intros k T Hk. destruct H as [-> | [Hn ->]]; [done|].
  rewrite lookup_insert_ne; [done|]. intros E. rewrite <- E, Hn in Hk. discriminate.
Qed.

(* ===================================================================== *)
(** ** Releasing the lock *)
(* ===================================================================== *)

Lemma unlockMigration_run (this : BQMigration) (w : World) (rows : list LockRecord) :
  faults w = [] ->
  tables w !! lock_id this = Some (LockTable rows) ->
  let affected := sql_count unlock_where rows in
  let w1 :=
    with_tables
      (<[lock_id this := LockTable (sql_update unlock_where unlock_set rows)]> (tables w))
      (with_trace (trace w ++ [EvCall (CQueryJob (UpdateUnlock (lock_id this)));
                               EvCall (CGetMetadata (UpdateUnlock (lock_id this)))]) w) in
  unlockMigration this w =
  if affected =? 0 then (Throw (unlock_failed this), w1)
  else (Ok tt, with_trace (trace w1 ++ [EvInfo "Removed migration lock."]) w1).
Proof.
  intros Hf Ht affected w1.
  unfold unlockMigration, bind. rewrite (createQueryJob_unlock this w rows Hf Ht).
  rewrite getMetadata_no_fault by done. simpl. fold affected.
  destruct (affected =? 0); unfold throw, console_info, emit, w1, with_tables, with_trace;
    simpl; rewrite <- ?app_assoc; reflexivity.
Qed.

Lemma sql_update_unlock (rows : list LockRecord) :
  sql_update unlock_where unlock_set rows = map (fun r => mkLock false (locked_at r)) rows.
Proof.
  unfold sql_update. apply map_ext. intros [[] t]; reflexivity.
Qed.

Lemma sql_count_unlocked (rows : list LockRecord) :
  sql_count unlock_where (map (fun r => mkLock false (locked_at r)) rows) = 0.
Proof. unfold sql_count. induction rows as [|r rows IH]; simpl; [done|exact IH]. Qed.

(** X4: when no client call rejects and the lock table exists,
    [unlockMigration] sets every row to unlocked and keeps each [locked_at];
    it throws the unlock error exactly when no row was locked; and a second
    release right after it always throws that error. *)
Theorem unlockMigration_spec (this : BQMigration) (w : World) (rows : list LockRecord) :
  faults w = [] ->
  tables w !! lock_id this = Some (LockTable rows) ->
  exists r w',
    unlockMigration this w = (r, w')
    /\ tables w' =
       <[lock_id this := LockTable (map (fun r => mkLock false (locked_at r)) rows)]> (tables w)
    /\ (r = Throw (unlock_failed this) <-> forall x, In x rows -> is_locked x = false)
    /\ (r = Ok tt <-> exists x, In x rows /\ is_locked x = true)
    /\ fst (unlockMigration this w') = Throw (unlock_failed this).
Proof.
  intros Hf Ht.
  pose proof (unlockMigration_run this w rows Hf Ht) as Hrun. simpl in Hrun.
  rewrite sql_update_unlock in Hrun.
  assert (forall w1 : World,
            faults w1 = [] ->
            tables w1 =
              <[lock_id this := LockTable (map (fun r => mkLock false (locked_at r)) rows)]>
                (tables w) ->
            fst (unlockMigration this w1) = Throw (unlock_failed this)) as Hagain.
  { intros w1 Hf1 Ht1.
    rewrite (unlockMigration_run this w1 (map (fun r => mkLock false (locked_at r)) rows) Hf1)
      by (rewrite Ht1; apply lookup_insert_eq).
    by rewrite sql_count_unlocked. }
  pose proof (sql_count_zero unlock_where rows) as Hz. unfold unlock_where in Hz.
  destruct (sql_count unlock_where rows =? 0) eqn:Haff; eexists _, _; (split; [exact Hrun|]).
  - apply Z.eqb_eq in Haff. split; [done|]. split; [split; [intros _; by apply Hz|done]|].
    split; [|by apply Hagain].
    split; [done|]. intros (x & Hx & Hl). rewrite (proj1 Hz Haff x Hx) in Hl. done.
  - apply Z.eqb_neq in Haff. split; [done|].
    split; [split; [done|intros H; by apply Hz in H]|].
    split; [|by apply Hagain]. split; [|done]. intros _.
    destruct (existsb is_locked rows) eqn:He.
    + apply existsb_exists in He. exact He.
    + exfalso. apply Haff, Hz. intros x Hx.
      destruct (is_locked x) eqn:Hlx; [|done].
      assert (existsb is_locked rows = true) by (apply existsb_exists; eauto). congruence.
Qed.

Lemma unlockMigration_spec_witness :
  exists r w',
    unlockMigration bqMigration (example_world [mkLock true 995] [] [] []) = (r, w')
    /\ r = Ok tt
    /\ fst (unlockMigration bqMigration w') = Throw (unlock_failed bqMigration).
Proof.
  destruct (unlockMigration_spec bqMigration (example_world [mkLock true 995] [] [] [])
              [mkLock true 995] eq_refl eq_refl)
    as (r & w' & Hrun & _ & _ & Hok & Hagain).
  exists r, w'. split; [exact Hrun|]. split; [|exact Hagain].
  apply Hok. exists (mkLock true 995). split; [by left|reflexivity].
Defined.

(* ===================================================================== *)
(** ** Taking the lock again after a release *)
(* ===================================================================== *)

Lemma sql_count_all {R} (p : R -> bool) (rows : list R) :
  (forall r, In r rows -> p r = true) -> sql_count p rows = Z.of_nat (length rows).
Proof.
  unfold sql_count. induction rows as [|a rows IH]; intros H; simpl; [done|].
  rewrite (H a) by (by left). simpl. f_equal. f_equal.
  assert (Z.of_nat (length (List.filter p rows)) = Z.of_nat (length rows)) as E
    by (apply IH; intros r Hr; apply H; by right).
  lia.
Qed.

(** X5: on a lock table with a row that is free or expired, taking the lock,
    releasing it and taking it again all succeed; every row ends locked at
    the current time and no other table is touched. *)
Theorem lock_unlock_lock (this : BQMigration) (w : World) (rows : list LockRecord) :
  faults w = [] ->
  tables w !! lock_id this = Some (LockTable rows) ->
  (exists r, In r rows /\
     (is_locked r = false
      \/ migrationLockExpirationTime this <= CURRENT_DATETIME (timezone this) w - locked_at r)) ->
  exists w',
    (lockMigration this ;;; unlockMigration this ;;; lockMigration this) w = (Ok tt, w')
    /\ tables w' !! lock_id this =
       Some (LockTable (map (fun _ => mkLock true (CURRENT_DATETIME (timezone this) w)) rows))
    /\ (forall k, k <> lock_id this -> tables w' !! k = tables w !! k).
Proof.
  intros Hf Ht (r0 & Hr0 & Hhit).
  set (now := CURRENT_DATETIME (timezone this) w).
  set (expiry := migrationLockExpirationTime this).
  assert (sql_count (lock_where now expiry) rows <> 0) as Hacq.
  { intros Hz. pose proof (proj1 (sql_count_zero _ _) Hz r0 Hr0) as Hz'. clear Hz.
    rename Hz' into Hz.
    unfold lock_where, DATETIME_DIFF in Hz. apply orb_false_elim in Hz as [Hz1 Hz2].
    apply Z.leb_gt in Hz2. destruct Hhit as [Hu | Hle].
    - rewrite Hu in Hz1. done.
    - unfold now, expiry in Hz2. lia. }
  unfold bind at 1.
  pose proof (lockMigration_run this w rows Hf Ht) as Hrun. simpl in Hrun.
  fold now expiry in Hrun. rewrite (proj2 (Z.eqb_neq _ _) Hacq) in Hrun. rewrite Hrun.
  clear Hrun.
  match goal with |- context [bind _ _ ?W] => set (wa := W) end.
  set (locked := sql_update (lock_where now expiry) (lock_set now) rows).
  assert (tables wa !! lock_id this = Some (LockTable locked)) as Hta
    by (simpl; apply lookup_insert_eq).
  unfold bind at 1.
  pose proof (unlockMigration_run this wa locked Hf Hta) as Hun. cbv zeta in Hun.
  pose proof (sql_count_lock_then_unlock now expiry rows Hacq) as Hcnt. fold locked in Hcnt.
  rewrite (proj2 (Z.eqb_neq _ _) Hcnt) in Hun. rewrite Hun. clear Hun.
  match goal with |- context [lockMigration this ?W] => set (wb := W) end.
  assert (tables wb !! lock_id this
          = Some (LockTable (sql_update unlock_where unlock_set locked))) as Htb
    by (simpl; apply lookup_insert_eq).
  pose proof (lockMigration_run this wb _ Hf Htb) as Hrun. cbv zeta in Hrun.
  change (CURRENT_DATETIME (timezone this) wb) with now in Hrun.
  fold expiry in Hrun.
  assert (forall r, In r (sql_update unlock_where unlock_set locked) ->
                    lock_where now expiry r = true) as Hall.
  { intros r. rewrite sql_update_unlock, in_map_iff. intros (x & <- & _). reflexivity. }
  assert (sql_count (lock_where now expiry) (sql_update unlock_where unlock_set locked) <> 0)
    as Hacq2.
  { rewrite sql_count_all by exact Hall. unfold sql_update. rewrite !length_map.
    destruct rows; [destruct Hr0|simpl; lia]. }
  rewrite (proj2 (Z.eqb_neq _ _) Hacq2) in Hrun. rewrite Hrun. clear Hrun.
  eexists. split; [reflexivity|]. simpl. split.
  - rewrite lookup_insert_eq. f_equal. f_equal. unfold locked.
    unfold sql_update at 1. rewrite sql_update_unlock. unfold sql_update.
    rewrite !map_map. apply map_ext_in. intros r Hr.
    rewrite Hall; [reflexivity|].
    rewrite sql_update_unlock. apply in_map_iff. eexists. split; [reflexivity|].
    apply in_map_iff. eexists. split; [reflexivity|exact Hr].
  - intros k Hk. by rewrite !lookup_insert_ne.
Qed.

Lemma lock_unlock_lock_witness :
  exists w',
    (lockMigration bqMigration ;;; unlockMigration bqMigration ;;; lockMigration bqMigration)
      (example_world [mkLock false 0] [] [] []) = (Ok tt, w')
    /\ tables w' !! lock_id bqMigration = Some (LockTable [mkLock true 1000]).
Proof.
  destruct (lock_unlock_lock bqMigration (example_world [mkLock false 0] [] [] [])
              [mkLock false 0] eq_refl eq_refl)
    as (w' & Hrun & Hl & _).
  - exists (mkLock false 0). split; [by left|by left].
  - exists w'. split; [exact Hrun|exact Hl].
Defined.

(* ===================================================================== *)
(** ** What the lock calls can change *)
(* ===================================================================== *)


#[local] Instance lock_rows_kept_refl (this : BQMigration) : Reflexive (lock_rows_kept this).
Proof.
  intros t. split; [done|]. destruct (t !! lock_id this) as [[]|] eqn:E; eauto.
Qed.

#[local] Instance lock_rows_kept_trans (this : BQMigration) : Transitive (lock_rows_kept this).
Proof.
  intros t1 t2 t3 [Ha1 Hb1] [Ha2 Hb2]. split.
  - intros k Hk. by rewrite Ha2, Ha1.
  - destruct (t1 !! lock_id this) as [[rows1|rows1|s1]|].
    + by rewrite Hb1 in Hb2.
    + destruct Hb1 as (rows2 & E2 & L2). rewrite E2 in Hb2.
      destruct Hb2 as (rows3 & E3 & L3). exists rows3. split; [done|congruence].
    + by rewrite Hb1 in Hb2.
    + by rewrite Hb1 in Hb2.
Qed.

Lemma sql_update_length {R : Type} (p : R -> bool) (f : R -> R) (rows : list R) :
  length (sql_update p f rows) = length rows.
Proof. unfold sql_update. apply length_map. Qed.

Lemma st_lock_job (this : BQMigration) (s : Stmt) :
  s = lock_stmt this \/ s = UpdateUnlock (lock_id this) ->
  steps_tables (lock_rows_kept this) (createQueryJob (bigquery this) s).
Proof.
  intros Hs. apply st_api; [apply _|]. intros w.
  destruct (exec_stmt s w) as [[r t]|] eqn:He; simpl; [|reflexivity].
  unfold exec_stmt in He. destruct Hs as [-> | ->]; simpl in He;
    destruct (tables w !! lock_id this) as [[rows|rows|sc]|] eqn:El; try discriminate;
    injection He as <- <-; (split; [intros k Hk; by rewrite lookup_insert_ne|]);
    rewrite El, lookup_insert_eq; eexists; (split; [reflexivity|]); apply sql_update_length.
Qed.

Lemma st_lockMigration (this : BQMigration) :
  steps_tables (lock_rows_kept this) (lockMigration this).
Proof.
  unfold lockMigration. apply st_bind; [apply _|apply st_lock_job; by left|].
  intros job. apply st_bind; [apply _|apply st_getMetadata; apply _|].
  intros n. destruct (n =? 0); [apply st_throw|apply st_emit]; apply _.
Qed.

Lemma st_unlockMigration (this : BQMigration) :
  steps_tables (lock_rows_kept this) (unlockMigration this).
Proof.
  unfold unlockMigration. apply st_bind; [apply _|apply st_lock_job; by right|].
  intros job. apply st_bind; [apply _|apply st_getMetadata; apply _|].
  intros n. destruct (n =? 0); [apply st_throw|apply st_emit]; apply _.
Qed.

(** X6: in every world, [lockMigration] and [unlockMigration] change no
    table but the lock table, never add or remove a row of it, and never
    create it. *)
Theorem lock_calls_keep_the_row_count (this : BQMigration) (w : World) :
  lock_rows_kept this (tables w) (tables (snd (lockMigration this w)))
  /\ lock_rows_kept this (tables w) (tables (snd (unlockMigration this w))).
Proof. split; [apply st_lockMigration|apply st_unlockMigration]. Qed.

(* ===================================================================== *)
(** ** [runMigrations] in every world *)
(* ===================================================================== *)

Lemma run_try_tables (this : BQMigration) (w : World) :
  tables (snd (run_try this w)) = tables (snd (createMigrationTable this w)).
Proof.
  unfold run_try, bind. by destruct (createMigrationTable this w) as [[[]|e] w1].
Qed.

(** X7: in every world, [runMigrations] calls no [up] and no [down], makes
    no lock attempt, sends nothing through [client.query] and logs an error;
    all it can change is to add the empty migration table and to rewrite the
    rows of the lock table. *)
Theorem runMigrations_never_runs_a_script (this : BQMigration) (w : World) :
  let w' := snd (runMigrations this w) in
  (exists evs,
     trace w' = trace w ++ evs
     /\ ups_of evs = [] /\ downs_of evs = []
     /\ ~ In (CQueryJob (lock_stmt this)) (calls_of evs)
     /\ (forall s, ~ In (CQuery s) (calls_of evs))
     /\ exists e, In ("Error running migrations:", e) (errors_of evs))
  /\ (exists t1, ledger_added this (tables w) t1 /\ lock_rows_kept this t1 (tables w')).
Proof.
  intros w'. split.
  - destruct (emits_runMigrations_quiet this w) as (evs & Ht & Hq). fold w' in Ht.
    exists evs. split; [done|].
    apply quiet_calls in Hq as (Hlock & Hups & Hdowns & Hquery).
    split; [done|]. split; [done|]. split; [done|]. split; [done|].
    destruct (run_try_throws this w) as (e & w1 & Htry & _ & _).
    exists e.
    pose proof (runMigrations_unfold this w) as Hu. rewrite Htry in Hu. simpl in Hu.
    destruct (emits_run_try this (fun _ => True) I I I w) as (evs1 & Ht1 & _).
    rewrite Htry in Ht1. simpl in Ht1.
    destruct (unlockMigration_trace this
                (with_trace (trace w1 ++ [EvError "Error running migrations:" e]) w1))
      as (evs3 & Ht3).
    rewrite <- Hu in Ht3. fold w' in Ht3. simpl in Ht3.
    assert (evs = evs1 ++ [EvError "Error running migrations:" e] ++ evs3) as ->.
    { apply (app_inv_head (trace w)). rewrite <- Ht, Ht3, Ht1, <- !app_assoc. done. }
    unfold errors_of. rewrite !omap_app, !in_app_iff. right. left. by left.
  - exists (tables (snd (createMigrationTable this w))). split.
    + apply st_createMigrationTable.
    + unfold w'. rewrite runMigrations_unfold.
      pose proof (st_unlockMigration this
                    (logged "Error running migrations:" (run_try this w))) as H.
      assert (tables (logged "Error running migrations:" (run_try this w))
              = tables (snd (createMigrationTable this w))) as E.
      { rewrite <- run_try_tables. by destruct (run_try this w) as [[[]|e] w1]. }
      by rewrite E in H.
Qed.





(* ===================================================================== *)
(** ** Reading the applied names *)
(* ===================================================================== *)

(** X8: for a batch number below [2 ^ 53] in magnitude, which a number of
    the runtime holds and prints exactly, [getAppliedMigrations] returns the
    names of the ledger in row order, those of batch [b] when [b] is given
    and is not 0, and all of them when no batch or batch 0 is given; it
    sends one query and leaves the tables as they are. *)
Theorem getAppliedMigrations_spec
    (this : BQMigration) (w : World) (rows : list MigrationRecord) (batch : option Z) :
  faults w = [] ->
  tables w !! ledger_id this = Some (LedgerTable rows) ->
  match batch with Some b => Z.abs b < 2 ^ 53 | None => True end ->
  exists w',
    getAppliedMigrations this batch w =
      (Ok (map mr_name
             (List.filter (fun r => match batch with
                                    | None | Some 0 => true
                                    | Some b => mr_batch r =? b
                                    end) rows)), w')
    /\ tables w' = tables w
    /\ calls_of (trace w') =
       calls_of (trace w) ++ [CQuery (SelectNames (ledger_id this) (batch_clause batch))].
Proof.
  intros Hf Hl Hb. unfold getAppliedMigrations, bind.
  rewrite (bq_query_run _ _ w
             (RNames (map mr_name (List.filter (batch_where (batch_clause batch)) rows)))
             (tables w));
    [|done|unfold exec_stmt; simpl stmt_table; by rewrite Hl].
  eexists. split; [|split].
  - unfold ret. f_equal. f_equal. f_equal. apply filter_ext_bool.
    intros r. destruct batch as [b|]; [|done].
    destruct (Z.eq_dec b 0) as [-> | Hnz]; [done|].
    rewrite batch_clause_exact by lia. by destruct b.
  - reflexivity.
  - simpl. unfold calls_of. rewrite omap_app. reflexivity.
Qed.

Lemma getAppliedMigrations_spec_witness :
  exists w',
    getAppliedMigrations bqMigration (Some 2)
      (example_world [] [mkMigration "001_init" 1 900; mkMigration "002_person" 2 950] [] [])
    = (Ok ["002_person"], w').
Proof.
  destruct (getAppliedMigrations_spec bqMigration
              (example_world [] [mkMigration "001_init" 1 900; mkMigration "002_person" 2 950]
                 [] [])
              [mkMigration "001_init" 1 900; mkMigration "002_person" 2 950] (Some 2)
              eq_refl eq_refl) as (w' & Hrun & _).
  - vm_compute. reflexivity.
  - exists w'. exact Hrun.
Defined.

Lemma st_bq_query_select (this : BQMigration) (c : Client) (s : Stmt) :
  (exists b, s = SelectNames (ledger_id this) b) \/ s = SelectMaxBatch (ledger_id this) ->
  steps_tables eq (bq_query c s).
Proof.
  intros Hs. apply st_api; [apply _|]. intros w.
  destruct (exec_stmt s w) as [[r t]|] eqn:He; simpl; [|reflexivity].
  unfold exec_stmt in He. destruct Hs as [[b ->] | ->]; simpl in He;
    destruct (tables w !! ledger_id this) as [[rows|rows|sc]|]; try discriminate;
    by injection He as <- <-.
Qed.

(** X9: in every world [getAppliedMigrations] leaves the tables as they
    are, and it rejects with the error of its query when the migration table
    is missing or is not a migration table. *)
Theorem getAppliedMigrations_reads_only
    (this : BQMigration) (w : World) (batch : option Z) :
  let '(r, w') := getAppliedMigrations this batch w in
  tables w' = tables w
  /\ match tables w !! ledger_id this with
     | Some (LedgerTable _) => True
     | _ => r = Throw (ApiError (CQuery (SelectNames (ledger_id this) (batch_clause batch))))
     end.
Proof.
  assert (steps_tables eq (getAppliedMigrations this batch)) as Hst.
  { unfold getAppliedMigrations.
    apply st_bind; [apply _|apply (st_bq_query_select this); eauto|].
    intros [names|m|n]; [apply st_ret|apply st_throw|apply st_throw]; apply _. }
  specialize (Hst w). destruct (getAppliedMigrations this batch w) as [r w'] eqn:Hrun.
  simpl in Hst. split; [done|].
  destruct (tables w !! ledger_id this) as [[rows|rows|sc]|] eqn:Hl; [done|..];
    unfold getAppliedMigrations, bind, bq_query, api in Hrun; simpl in Hrun;
    unfold exec_stmt in Hrun; simpl in Hrun; rewrite Hl in Hrun;
    destruct (faults w) as [|[] fs]; by injection Hrun as <- _.
Qed.

(* ===================================================================== *)
(** ** The order of the catalog *)
(* ===================================================================== *)

Lemma filter_bool_Permutation {A : Type} (p : A -> bool) (l l' : list A) :
  l ≡ₚ l' -> List.filter p l ≡ₚ List.filter p l'.
Proof.
  induction 1 as [|x l l' _ IH|x y l|l1 l2 l3 _ IH1 _ IH2]; simpl.
  - done.
  - destruct (p x); [by constructor|done].
  - destruct (p x), (p y); try done. apply perm_swap.
  - by etransitivity.
Qed.

Lemma catalog_Permutation (entries entries' : list string) :
  entries ≡ₚ entries' -> catalog entries = catalog entries'.
Proof.
  intros Hp. apply (StronglySorted_unique String.le); try apply catalog_sorted.
  unfold catalog. rewrite !merge_sort_Permutation. by apply filter_bool_Permutation.
Qed.

(** X10: the result of [getMigrationFiles] does not depend on the order in
    which the directory lists its entries. *)
Theorem getMigrationFiles_ignores_listing_order
    (this : BQMigration) (w1 w2 : World) (entries1 entries2 : list string) :
  dirs w1 !! migrationsDir this = Some entries1 ->
  dirs w2 !! migrationsDir this = Some entries2 ->
  entries1 ≡ₚ entries2 ->
  fst (getMigrationFiles this w1) = fst (getMigrationFiles this w2).
Proof.
  intros H1 H2 Hp. unfold getMigrationFiles, bind, readdir. rewrite H1, H2. simpl.
  unfold ret. simpl. f_equal. by apply catalog_Permutation.
Qed.

Lemma getMigrationFiles_ignores_listing_order_witness :
  fst (getMigrationFiles bqMigration
         (example_world [] [] ["002_person.js"; "001_init.js"] []))
  = fst (getMigrationFiles bqMigration
           (example_world [] [] ["001_init.js"; "002_person.js"] [])).
Proof.
  apply (getMigrationFiles_ignores_listing_order bqMigration _ _
           ["002_person.js"; "001_init.js"] ["001_init.js"; "002_person.js"]).
  - reflexivity.
  - reflexivity.
  - apply perm_swap.
Defined.


Lemma ascii_compare_nat (a b : ascii) :
  Ascii.compare a b = Nat.compare (nat_of_ascii a) (nat_of_ascii b).
Proof. unfold Ascii.compare, nat_of_ascii. by rewrite N2Nat.inj_compare. Qed.

Lemma is_digit_bounds (c : ascii) : is_digit c = true -> 0 <= digit_value c <= 9.
Proof.
  unfold is_digit, digit_value. rewrite andb_true_iff, !Nat.leb_le. lia.
Qed.

Lemma prefix_number_le (f g : string) :
  test_3digits_underscore f = true -> test_3digits_underscore g = true ->
  String.le f g -> prefix_number f <= prefix_number g.
Proof.
  intros Hf Hg.
  apply test_3digits_underscore_spec in Hf as (a & b & c & rf & -> & Ha & Hb & Hc).
  apply test_3digits_underscore_spec in Hg as (a' & b' & c' & rg & -> & Ha' & Hb' & Hc').
  apply is_digit_bounds in Ha, Hb, Hc, Ha', Hb', Hc'.
  unfold String.le, String.leb. simpl String.compare. rewrite !ascii_compare_nat.
  unfold prefix_number, digit_value in *.
  destruct (Nat.compare_spec (nat_of_ascii a) (nat_of_ascii a')) as [E1|L1|G1];
    [|intros _; lia|intros []].
  destruct (Nat.compare_spec (nat_of_ascii b) (nat_of_ascii b')) as [E2|L2|G2];
    [|intros _; lia|intros []].
  destruct (Nat.compare_spec (nat_of_ascii c) (nat_of_ascii c')) as [E3|L3|G3];
    [intros _; lia|intros _; lia|intros []].
Qed.

Lemma StronglySorted_weaken {A : Type} (R R' : relation A) (P : A -> Prop) (l : list A) :
  (forall x y, P x -> P y -> R x y -> R' x y) ->
  Forall P l -> StronglySorted R l -> StronglySorted R' l.
Proof.
  intros HR HP Hs. induction Hs as [|a l Hs IH Ha]; [constructor|].
  apply Forall_cons in HP as [Pa Pl]. constructor; [by apply IH|].
  rewrite List.Forall_forall in *. intros x Hx. apply HR; auto.
Qed.

(** X11: the files returned by [getMigrationFiles] come in ascending order
    of their three-digit number. *)
Theorem getMigrationFiles_in_numeric_order
    (this : BQMigration) (w : World) (files : list string) :
  fst (getMigrationFiles this w) = Ok files ->
  StronglySorted (fun f g => prefix_number f <= prefix_number g) files.
Proof.
  unfold getMigrationFiles, bind, readdir.
  destruct (dirs w !! migrationsDir this) as [entries|]; [|discriminate].
  simpl. intros [= <-]. fold (catalog entries).
  apply (StronglySorted_weaken String.le _ (fun f => test_3digits_underscore f = true)).
  - intros x y. apply prefix_number_le.
  - apply Forall_forall. intros f Hf. apply catalog_elem in Hf as [_ Hv].
    unfold valid_migration_file in Hv. by apply andb_prop in Hv as [Hv _].
  - apply catalog_sorted.
Qed.

Lemma getMigrationFiles_in_numeric_order_witness :
  StronglySorted (fun f g => prefix_number f <= prefix_number g)
    ["001_init.js"; "002_person.js"; "010_email.ts"].
Proof.
  apply (getMigrationFiles_in_numeric_order bqMigration
           (example_world [] [] ["010_email.ts"; "002_person.js"; "x.js"; "001_init.js"] [])).
  vm_compute. reflexivity.
Defined.

(* ===================================================================== *)
(** ** The example scripts *)
(* ===================================================================== *)

(** X12: for a script of the example, on a dataset without its table: [up]
    creates the table and touches nothing else, [down] then restores the
    dataset exactly; a second [up] throws, and so does a [down] without the
    table. *)
Theorem table_script_up_then_down
    (tableId : string) (schema : Schema) (c : Client) (ds : string) (t : Tables) :
  t !! (ds, tableId) = None ->
  exists t1,
    up (table_script tableId schema) c ds t = (Ok tt, t1)
    /\ t1 !! (ds, tableId) = Some (UserTable schema)
    /\ (forall k, k <> (ds, tableId) -> t1 !! k = t !! k)
    /\ down (table_script tableId schema) c ds t1 = (Ok tt, t)
    /\ fst (up (table_script tableId schema) c ds t1)
       = Throw (ApiError (CCreateTable (ds, tableId) schema))
    /\ fst (down (table_script tableId schema) c ds t)
       = Throw (ApiError (CDeleteTable (ds, tableId))).
Proof.
  intros Hn. exists (<[(ds, tableId) := UserTable schema]> t). simpl.
  rewrite Hn, lookup_insert_eq. split; [done|]. split; [done|].
  split; [intros k Hk; by rewrite lookup_insert_ne|].
  split; [|done]. f_equal. rewrite delete_insert_eq. by apply delete_id.
Qed.

Lemma table_script_up_then_down_witness :
  exists t1,
    up (table_script "person" person_schema) BigQueryClient "birdy_posts" ∅ = (Ok tt, t1)
    /\ down (table_script "person" person_schema) BigQueryClient "birdy_posts" t1 = (Ok tt, ∅).
Proof.
  destruct (table_script_up_then_down "person" person_schema BigQueryClient "birdy_posts" ∅)
    as (t1 & Hup & _ & _ & Hdown & _).
  - apply lookup_empty.
  - exists t1. split; [exact Hup|exact Hdown].
Defined.

(* ===================================================================== *)
(** ** Rollbacks that go wrong, and what a rollback leaves *)
(* ===================================================================== *)


Lemma world_ext (a b : World) :
  tables a = tables b -> dirs a = dirs b -> modules a = modules b -> clock a = clock b ->
  tz_offset a = tz_offset b -> faults a = faults b -> trace a = trace b ->
  other_sql a = other_sql b -> a = b.
Proof. destruct a, b. simpl. by intros -> -> -> -> -> -> -> ->. Qed.

Lemma rollback_try_to_loop
    (this : BQMigration) (w : World) (lockRows : list LockRecord)
    (rows : list MigrationRecord) (entries : list string) :
  faults w = [] ->
  tables w !! lock_id this = Some (LockTable lockRows) ->
  sql_count (lock_where (CURRENT_DATETIME (timezone this) w)
               (migrationLockExpirationTime this)) lockRows <> 0 ->
  tables w !! ledger_id this = Some (LedgerTable rows) ->
  dirs w !! migrationsDir this = Some entries ->
  rollback_try this w =
  (rolledBackMigrations <-
     rollback_loop this
       (map mr_name (List.filter (batch_where (batch_clause (Some (current_batch rows)))) rows))
       (catalog entries) [] ;;
   rollback_record this (current_batch rows) rolledBackMigrations)
    (rollback_loop_world this w lockRows rows).
Proof.
  intros Hf Hlock Hacq Hledger Hdir.
  assert (lock_id this <> ledger_id this) as Hne.
  { intros Heq. rewrite Heq, Hledger in Hlock. discriminate. }
  unfold rollback_try. unfold bind at 1.
  pose proof (lockMigration_run this w lockRows Hf Hlock) as Hrun. cbv zeta in Hrun.
  rewrite (proj2 (Z.eqb_neq _ _) Hacq) in Hrun. rewrite Hrun. clear Hrun.
  unfold bind at 1. unfold getMigrationFiles, bind at 1, readdir. simpl dirs. rewrite Hdir.
  unfold ret at 1. fold (catalog entries).
  match goal with |- context [bind _ _ ?W] => set (wb := W) end.
  assert (tables wb !! ledger_id this = Some (LedgerTable rows)) as Hlb.
  { simpl. by rewrite lookup_insert_ne. }
  unfold bind at 1.
  rewrite (bq_query_run _ _ wb (RMax (sql_max (map mr_batch rows))) (tables wb));
    [|done|unfold exec_stmt; simpl stmt_table; by rewrite Hlb].
  change (number_or_zero (RMax (sql_max (map mr_batch rows)))) with (current_batch rows).
  match goal with |- context [bind _ _ ?W] => set (wc := W) end.
  unfold bind at 1. unfold getAppliedMigrations, bind at 1.
  rewrite (bq_query_run _ _ wc
             (RNames (map mr_name
                        (List.filter (batch_where (batch_clause (Some (current_batch rows))))
                           rows)))
             (tables wc));
    [|done|unfold exec_stmt; simpl stmt_table;
           change (tables wc) with (tables wb); by rewrite Hlb].
  unfold ret at 1.
  match goal with |- _ ?W = _ => set (wd := W) end.
  assert (wd = rollback_loop_world this w lockRows rows) as Hwd.
  { apply world_ext; try reflexivity.
    unfold wd, wc, wb, rollback_loop_world. cbn [trace with_trace with_tables].
    rewrite <- !app_assoc. reflexivity. }
  by rewrite Hwd.
Qed.

Lemma rollback_targets_filter (rows : list MigrationRecord) (entries : list string) :
  Forall (fun r => 0 < mr_batch r < 2 ^ 53) rows ->
  List.filter
    (fun f => includes
                (map mr_name
                   (List.filter (batch_where (batch_clause (Some (current_batch rows)))) rows))
                (path_parse_name f)) (catalog entries)
  = rollback_targets rows entries.
Proof. intros Hpos. apply filter_ext_bool. intros f. by apply latest_batch_names. Qed.

(** The loop stops at the first [down] that throws. *)
Lemma rollback_loop_fails (this : BQMigration) (latest : list string) (m : Script)
    (f : string) (e : JsError) (post : list string) (t1 t1' : Tables) :
  forall (pre files acc : list string) (w : World),
  List.filter (fun f => includes latest (path_parse_name f)) files = pre ++ f :: post ->
  downs_dry_run this (modules w) pre (tables w) = Some t1 ->
  modules w !! path_join (migrationsDir this) f = Some m ->
  down m (bigquery this) (datasetId this) t1 = (Throw e, t1') ->
  rollback_loop this latest files acc w =
  (Throw e,
   with_tables t1'
     (with_trace (trace w ++ down_events this (pre ++ [f])) w)).
Proof.
  intros pre files. revert pre.
  induction files as [|file files IH]; intros pre acc w Hsel Hdry Hm Hd; simpl in Hsel.
  - by destruct pre.
  - simpl. destruct (includes latest (path_parse_name file)) eqn:Hin; [|by eapply IH].
    destruct pre as [|p pre]; simpl in Hsel; injection Hsel as -> Hsel.
    + simpl in Hdry. injection Hdry as Ht. rewrite <- Ht in Hd.
      unfold bind, require, call_down. rewrite Hm. simpl. rewrite Hd.
      unfold with_tables, with_trace. simpl. by rewrite <- !app_assoc.
    + simpl in Hdry.
      destruct (modules w !! path_join (migrationsDir this) p) as [mp|] eqn:Hmp; [|done].
      destruct (down mp _ _ (tables w)) as [[[]|ep] tp] eqn:Hdp; [|done].
      destruct (same_bookkeeping this (tables w) tp); [|done].
      unfold bind, require, call_down. rewrite Hmp. simpl. rewrite Hdp.
      erewrite IH; [|exact Hsel|exact Hdry|exact Hm|exact Hd].
      unfold with_tables, with_trace. simpl. by rewrite <- !app_assoc.
Qed.


Lemma errors_of_down_events (this : BQMigration) (files : list string) :
  errors_of (down_events this files) = [].
Proof. induction files as [|f files IH]; simpl; done. Qed.

Lemma calls_of_down_events (this : BQMigration) (files : list string) :
  calls_of (down_events this files) = [].
Proof. induction files as [|f files IH]; simpl; done. Qed.

(** X13: on a ledger of positive batch numbers below [2 ^ 53], when the
    [down] of a script of the current batch throws, the rollback stops
    there: the scripts before it have been reverted, those after it are not
    called, no row is deleted from the ledger (the reverted scripts stay
    recorded), the error is logged, the lock is released and the call
    resolves. *)
Theorem rollback_stops_at_failing_down
    (this : BQMigration) (w : World) (lockRows : list LockRecord)
    (rows : list MigrationRecord) (entries : list string)
    (pre post : list string) (f : string) (e : JsError) :
  let now := CURRENT_DATETIME (timezone this) w in
  let expiry := migrationLockExpirationTime this in
  let locked := sql_update (lock_where now expiry) (lock_set now) lockRows in
  faults w = [] ->
  tables w !! lock_id this = Some (LockTable lockRows) ->
  sql_count (lock_where now expiry) lockRows <> 0 ->
  tables w !! ledger_id this = Some (LedgerTable rows) ->
  Forall (fun r => 0 < mr_batch r < 2 ^ 53) rows ->
  dirs w !! migrationsDir this = Some entries ->
  rollback_targets rows entries = pre ++ f :: post ->
  down_fails_after this (modules w) pre f (<[lock_id this := LockTable locked]> (tables w))
    = Some e ->
  exists w',
    rollbackMigrations this w = (Ok tt, w')
    /\ downs_of (trace w') = downs_of (trace w) ++ pre ++ [f]
    /\ errors_of (trace w') = errors_of (trace w) ++ [("Error rolling back:", e)]
    /\ calls_of (trace w') =
       calls_of (trace w) ++
       [CQueryJob (lock_stmt this); CGetMetadata (lock_stmt this);
        CQuery (SelectMaxBatch (ledger_id this));
        CQuery (SelectNames (ledger_id this) (batch_clause (Some (current_batch rows))));
        CQueryJob (UpdateUnlock (lock_id this)); CGetMetadata (UpdateUnlock (lock_id this))]
    /\ tables w' !! ledger_id this = Some (LedgerTable rows)
    /\ tables w' !! lock_id this = Some (LockTable (sql_update unlock_where unlock_set locked)).
Proof.
  intros now expiry locked Hf Hlock Hacq Hledger Hpos Hdir Htargets Hfail.
  assert (lock_id this <> ledger_id this) as Hne.
  { intros Heq. rewrite Heq, Hledger in Hlock. discriminate. }
  unfold down_fails_after in Hfail.
  destruct (downs_dry_run this (modules w) pre _) as [t1|] eqn:Hdry; [|done].
  destruct (modules w !! path_join (migrationsDir this) f) as [m|] eqn:Hm; [|done].
  destruct (down m _ _ t1) as [[[]|e'] t1'] eqn:Hd; [done|].
  destruct (same_bookkeeping this t1 t1') eqn:Hsame; [|done]. injection Hfail as ->.
  destruct (downs_dry_run_bookkeeping _ _ _ _ _ Hdry) as [Hb1 Hb2].
  rewrite lookup_insert_ne in Hb1 by done. rewrite lookup_insert_eq in Hb2.
  unfold same_bookkeeping in Hsame. apply andb_prop in Hsame as [Hs1 Hs2].
  apply bool_decide_eq_true in Hs1, Hs2. rewrite Hb1 in Hs1. rewrite Hb2 in Hs2.
  rewrite Hledger in Hs1.
  pose proof (rollback_try_to_loop this w lockRows rows entries Hf Hlock Hacq Hledger Hdir)
    as Htry.
  unfold bind at 1 in Htry.
  rewrite (rollback_loop_fails this _ m f e post t1 t1' pre (catalog entries) []
             (rollback_loop_world this w lockRows rows)) in Htry;
    [|by rewrite rollback_targets_filter|exact Hdry|exact Hm|exact Hd].
  rewrite rollbackMigrations_unfold, Htry. unfold logged.
  match goal with |- context [unlockMigration this ?W] => set (we := W) end.
  assert (tables we !! lock_id this = Some (LockTable locked)) as Hle by exact Hs2.
  pose proof (unlockMigration_run this we locked Hf Hle) as Hun. cbv zeta in Hun.
  pose proof (sql_count_lock_then_unlock now expiry lockRows Hacq) as Hcnt. fold locked in Hcnt.
  rewrite (proj2 (Z.eqb_neq _ _) Hcnt) in Hun. rewrite Hun. clear Hun.
  eexists. split; [reflexivity|]. simpl.
  unfold downs_of, errors_of, calls_of. rewrite !omap_app. simpl.
  fold (downs_of (down_events this (pre ++ [f]))).
  fold (errors_of (down_events this (pre ++ [f]))).
  fold (calls_of (down_events this (pre ++ [f]))).
  rewrite downs_of_down_events.
  rewrite errors_of_down_events, calls_of_down_events.
  rewrite !app_nil_r.
  split; [done|]. split; [done|]. split; [by rewrite <- !app_assoc|].
  rewrite lookup_insert_ne by done. rewrite lookup_insert_eq. done.
Qed.

Lemma rollback_stops_at_failing_down_witness :
  exists w',
    rollbackMigrations bqMigration example_broken_world = (Ok tt, w')
    /\ downs_of (trace w') = ["001_init.js"; "002_person.js"]
    /\ tables w' !! ledger_id bqMigration
       = Some (LedgerTable [mkMigration "001_init" 1 900; mkMigration "002_person" 1 900]).
Proof.
  destruct (rollback_stops_at_failing_down bqMigration example_broken_world
              [mkLock false 0]
              [mkMigration "001_init" 1 900; mkMigration "002_person" 1 900]
              ["002_person.js"; "001_init.js"]
              ["001_init.js"] [] "002_person.js"
              (ApiError (CDeleteTable ("birdy_posts", "person2"))))
    as (w' & Hrun & Hdowns & _ & _ & Hledger & _).
  - reflexivity.
  - reflexivity.
  - vm_compute. discriminate.
  - reflexivity.
  - repeat constructor.
  - reflexivity.
  - vm_compute. reflexivity.
  - vm_compute. reflexivity.
  - exists w'. split; [exact Hrun|]. split; [exact Hdowns|exact Hledger].
Defined.

(** X14: when the migrations directory cannot be read, a rollback that took
    the lock logs the file-system error, reads no ledger, runs no script,
    releases the lock and resolves; only the lock table has changed. *)
Theorem rollback_unreadable_directory
    (this : BQMigration) (w : World) (lockRows : list LockRecord) :
  let now := CURRENT_DATETIME (timezone this) w in
  let expiry := migrationLockExpirationTime this in
  let locked := sql_update (lock_where now expiry) (lock_set now) lockRows in
  faults w = [] ->
  tables w !! lock_id this = Some (LockTable lockRows) ->
  sql_count (lock_where now expiry) lockRows <> 0 ->
  dirs w !! migrationsDir this = None ->
  exists w',
    rollbackMigrations this w = (Ok tt, w')
    /\ trace w' =
       trace w ++
       [EvCall (CQueryJob (lock_stmt this)); EvCall (CGetMetadata (lock_stmt this));
        EvInfo "Received migration lock."; EvReaddir (migrationsDir this);
        EvError "Error rolling back:" (FsError (migrationsDir this));
        EvCall (CQueryJob (UpdateUnlock (lock_id this)));
        EvCall (CGetMetadata (UpdateUnlock (lock_id this)));
        EvInfo "Removed migration lock."]
    /\ (forall k, k <> lock_id this -> tables w' !! k = tables w !! k)
    /\ tables w' !! lock_id this = Some (LockTable (sql_update unlock_where unlock_set locked)).
Proof.
  intros now expiry locked Hf Hlock Hacq Hdir.
  assert (rollback_try this w =
          (Throw (FsError (migrationsDir this)),
           with_trace
             (trace w ++ [EvCall (CQueryJob (lock_stmt this));
                          EvCall (CGetMetadata (lock_stmt this));
                          EvInfo "Received migration lock."; EvReaddir (migrationsDir this)])
             (with_tables (<[lock_id this := LockTable locked]> (tables w)) w))) as Htry.
  { unfold rollback_try. unfold bind at 1.
    pose proof (lockMigration_run this w lockRows Hf Hlock) as Hrun. cbv zeta in Hrun.
    fold now expiry in Hrun.
    rewrite (proj2 (Z.eqb_neq _ _) Hacq) in Hrun. rewrite Hrun. clear Hrun.
    unfold bind at 1. unfold getMigrationFiles, bind at 1, readdir. simpl dirs. rewrite Hdir.
    f_equal. apply world_ext; try reflexivity. simpl. by rewrite <- !app_assoc. }
  rewrite rollbackMigrations_unfold, Htry. unfold logged.
  match goal with |- context [unlockMigration this ?W] => set (we := W) end.
  assert (tables we !! lock_id this = Some (LockTable locked)) as Hle
    by (simpl; apply lookup_insert_eq).
  pose proof (unlockMigration_run this we locked Hf Hle) as Hun. cbv zeta in Hun.
  pose proof (sql_count_lock_then_unlock now expiry lockRows Hacq) as Hcnt. fold locked in Hcnt.
  rewrite (proj2 (Z.eqb_neq _ _) Hcnt) in Hun. rewrite Hun. clear Hun.
  eexists. split; [reflexivity|]. simpl. rewrite <- !app_assoc. split; [done|].
  split; [intros k Hk; by rewrite !lookup_insert_ne|]. by rewrite lookup_insert_eq.
Qed.

Lemma rollback_unreadable_directory_witness :
  exists w',
    rollbackMigrations bqMigration
      (mkWorld (<[lock_id bqMigration := LockTable [mkLock false 0]]> ∅) ∅ ∅ 1000
         (fun _ => 0) [] [] (fun _ _ => None)) = (Ok tt, w')
    /\ errors_of (trace w') = [("Error rolling back:", FsError "/app/migrations")].
Proof.
  destruct (rollback_unreadable_directory bqMigration
              (mkWorld (<[lock_id bqMigration := LockTable [mkLock false 0]]> ∅) ∅ ∅ 1000
                 (fun _ => 0) [] [] (fun _ _ => None))
              [mkLock false 0]) as (w' & Hrun & Ht & _).
  - reflexivity.
  - reflexivity.
  - vm_compute. discriminate.
  - reflexivity.
  - exists w'. split; [exact Hrun|]. rewrite Ht. reflexivity.
Defined.

(** X15: when every lock row is held and not expired, a rollback reads
    neither the directory nor the ledger and runs no script: it logs the
    lock error and sends the unlock update, which sets every row free; no
    other table changes, and the call resolves unless the lock table is
    empty. *)
Theorem rollback_that_cannot_lock
    (this : BQMigration) (w : World) (lockRows : list LockRecord) :
  let now := CURRENT_DATETIME (timezone this) w in
  let expiry := migrationLockExpirationTime this in
  faults w = [] ->
  tables w !! lock_id this = Some (LockTable lockRows) ->
  (forall r, In r lockRows -> is_locked r = true /\ now - locked_at r < expiry) ->
  exists r w',
    rollbackMigrations this w = (r, w')
    /\ (exists evs,
          trace w' = trace w ++ evs
          /\ calls_of evs =
             [CQueryJob (lock_stmt this); CGetMetadata (lock_stmt this);
              CQueryJob (UpdateUnlock (lock_id this));
              CGetMetadata (UpdateUnlock (lock_id this))]
          /\ errors_of evs = [("Error rolling back:", lock_failed this)]
          /\ downs_of evs = []
          /\ ~ In (EvReaddir (migrationsDir this)) evs)
    /\ (forall k, k <> lock_id this -> tables w' !! k = tables w !! k)
    /\ tables w' !! lock_id this =
       Some (LockTable (map (fun r => mkLock false (locked_at r)) lockRows))
    /\ (r = Ok tt <-> lockRows <> []).
Proof.
  intros now expiry Hf Hlock Hheld.
  assert (forall r, In r lockRows -> lock_where now expiry r = false) as Hmiss.
  { intros r Hr. destruct (Hheld r Hr) as [Hl Ht]. unfold lock_where, DATETIME_DIFF.
    rewrite Hl. simpl. apply Z.leb_gt. lia. }
  assert (sql_update (lock_where now expiry) (lock_set now) lockRows = lockRows) as Hsame.
  { unfold sql_update. rewrite <- (map_id lockRows) at 2. apply map_ext_in.
    intros r Hr. by rewrite Hmiss. }
  assert (rollback_try this w =
          (Throw (lock_failed this),
           with_tables (<[lock_id this := LockTable lockRows]> (tables w))
             (with_trace (trace w ++ [EvCall (CQueryJob (lock_stmt this));
                                      EvCall (CGetMetadata (lock_stmt this))]) w))) as Htry.
  { unfold rollback_try. unfold bind at 1.
    pose proof (lockMigration_run this w lockRows Hf Hlock) as Hrun. cbv zeta in Hrun.
    fold now expiry in Hrun.
    rewrite (proj2 (Z.eqb_eq _ _) (proj2 (sql_count_zero _ _) Hmiss)) in Hrun.
    rewrite Hrun, Hsame. reflexivity. }
  rewrite rollbackMigrations_unfold, Htry. unfold logged.
  match goal with |- context [unlockMigration this ?W] => set (we := W) end.
  assert (tables we !! lock_id this = Some (LockTable lockRows)) as Hle
    by (simpl; apply lookup_insert_eq).
  pose proof (unlockMigration_run this we lockRows Hf Hle) as Hun. cbv zeta in Hun.
  rewrite sql_update_unlock in Hun.
  assert (sql_count unlock_where lockRows = Z.of_nat (length lockRows)) as Hcnt.
  { apply sql_count_all. intros r Hr. by destruct (Hheld r Hr). }
  rewrite Hcnt in Hun. rewrite Hun. clear Hun.
  destruct lockRows as [|r0 rest]; simpl Z.eqb; cbv iota.
  - eexists _, _. split; [reflexivity|]. simpl. split.
    + eexists. split; [by rewrite <- !app_assoc|]. simpl.
      repeat split; try done. intros [H|[H|[H|[H|[H|[]]]]]]; discriminate.
    + split; [intros k Hk; by rewrite !lookup_insert_ne|].
      split; [by rewrite lookup_insert_eq|]. split; done.
  - eexists _, _. split; [reflexivity|]. simpl. split.
    + eexists. split; [by rewrite <- !app_assoc|]. simpl.
      repeat split; try done. intros [H|[H|[H|[H|[H|[H|[]]]]]]]; discriminate.
    + split; [intros k Hk; by rewrite !lookup_insert_ne|].
      split; [by rewrite lookup_insert_eq|]. split; done.
Qed.

Lemma rollback_that_cannot_lock_witness :
  exists r w',
    rollbackMigrations bqMigration
      (example_world [mkLock true 995] [mkMigration "001_init" 1 900] ["001_init.js"] [])
    = (r, w')
    /\ (forall k, k <> lock_id bqMigration ->
          tables w' !! k
          = tables (example_world [mkLock true 995] [mkMigration "001_init" 1 900]
                      ["001_init.js"] []) !! k)
    /\ (r = Ok tt <-> [mkLock true 995] <> []).
Proof.
  destruct (rollback_that_cannot_lock bqMigration
              (example_world [mkLock true 995] [mkMigration "001_init" 1 900]
                 ["001_init.js"] [])
              [mkLock true 995]) as (r & w' & Hrun & _ & Hk & _ & Hr).
  - reflexivity.
  - reflexivity.
  - intros r [<- | []]. split; [reflexivity|]. vm_compute. reflexivity.
  - exists r, w'. split; [exact Hrun|]. split; [exact Hk|exact Hr].
Defined.

(** The normal course of a rollback, up to the ledger it leaves. *)
Lemma rollback_ledger_after
    (this : BQMigration) (w : World) (lockRows : list LockRecord)
    (rows : list MigrationRecord) (entries : list string) :
  let now := CURRENT_DATETIME (timezone this) w in
  let expiry := migrationLockExpirationTime this in
  let locked := sql_update (lock_where now expiry) (lock_set now) lockRows in
  let executed := map path_parse_name (rollback_targets rows entries) in
  faults w = [] ->
  tables w !! lock_id this = Some (LockTable lockRows) ->
  sql_count (lock_where now expiry) lockRows <> 0 ->
  tables w !! ledger_id this = Some (LedgerTable rows) ->
  Forall (fun r => 0 < mr_batch r < 2 ^ 53) rows ->
  dirs w !! migrationsDir this = Some entries ->
  forallb plain_literal executed = true ->
  is_Some (downs_dry_run this (modules w) (rollback_targets rows entries)
             (<[lock_id this := LockTable locked]> (tables w))) ->
  exists w',
    rollbackMigrations this w = (Ok tt, w')
    /\ tables w' !! ledger_id this =
       Some (LedgerTable
               (List.filter (fun r => negb (delete_where executed (current_batch rows) r)) rows))
    /\ downs_of (trace w') = downs_of (trace w) ++ rollback_targets rows entries.
Proof.
  intros now expiry locked executed Hf Hlock Hacq Hledger Hpos Hdir Hplain [t2 Hdry].
  assert (lock_id this <> ledger_id this) as Hne.
  { intros Heq. rewrite Heq, Hledger in Hlock. discriminate. }
  destruct (downs_dry_run_bookkeeping _ _ _ _ _ Hdry) as [Hb1 Hb2].
  rewrite lookup_insert_ne in Hb1 by done. rewrite lookup_insert_eq in Hb2.
  rewrite Hledger in Hb1.
  pose proof (rollback_try_to_loop this w lockRows rows entries Hf Hlock Hacq Hledger Hdir)
    as Htry.
  unfold bind at 1 in Htry.
  rewrite (rollback_loop_run this _ (catalog entries) []
             (rollback_loop_world this w lockRows rows) t2) in Htry
    by (rewrite rollback_targets_filter by done; exact Hdry).
  rewrite rollback_targets_filter in Htry by done. simpl app in Htry. fold executed in Htry.
  match type of Htry with context [rollback_record _ _ _ ?W] => set (we := W) in Htry end.
  assert (faults we = []) as Hfe by exact Hf.
  assert (tables we = t2) as Hte by reflexivity.
  assert (downs_of (trace we) = downs_of (trace w) ++ rollback_targets rows entries) as Hde.
  { simpl. unfold downs_of. rewrite !omap_app. simpl. rewrite !app_nil_r.
    f_equal. apply downs_of_down_events. }
  clearbody we.
  assert (exists w1,
            rollback_try this w = (Ok tt, w1) /\ faults w1 = []
            /\ downs_of (trace w1) = downs_of (trace we)
            /\ tables w1 !! lock_id this = Some (LockTable locked)
            /\ tables w1 !! ledger_id this =
               Some (LedgerTable
                       (List.filter
                          (fun r => negb (delete_where executed (current_batch rows) r)) rows)))
    as (w1 & Htry1 & Hf1 & Hd1 & Hk1 & Hl1).
  { rewrite Htry. unfold rollback_record.
    destruct (length executed =? 0)%nat eqn:Hlen.
    - apply Nat.eqb_eq in Hlen. apply length_zero_iff_nil in Hlen.
      eexists. split; [reflexivity|]. simpl. rewrite Hte.
      split; [done|]. split; [unfold downs_of; rewrite omap_app; simpl; by rewrite app_nil_r|].
      split; [done|]. rewrite Hb1. f_equal. f_equal. symmetry. apply filter_all.
      intros r. unfold delete_where. by rewrite Hlen.
    - unfold bind.
      rewrite (delete_stmt_plain this executed (current_batch rows) Hplain
                 (current_batch_abs rows Hpos)).
      rewrite (bq_query_run _ _ we
                 (RDml (sql_count (delete_where executed (current_batch rows)) rows))
                 (<[ledger_id this :=
                      LedgerTable
                        (List.filter
                           (fun r => negb (delete_where executed (current_batch rows) r))
                           rows)]> t2));
        [|done|unfold exec_stmt; simpl stmt_table; rewrite Hte; by rewrite Hb1].
      eexists. split; [reflexivity|]. simpl.
      split; [done|].
      split; [unfold downs_of; rewrite !omap_app; simpl; by rewrite !app_nil_r|].
      split; [by rewrite lookup_insert_ne|]. by rewrite lookup_insert_eq. }
  rewrite rollbackMigrations_unfold, Htry1. simpl logged.
  pose proof (unlockMigration_run this w1 locked Hf1 Hk1) as Hun. cbv zeta in Hun.
  pose proof (sql_count_lock_then_unlock now expiry lockRows Hacq) as Hcnt. fold locked in Hcnt.
  rewrite (proj2 (Z.eqb_neq _ _) Hcnt) in Hun. rewrite Hun. clear Hun.
  eexists. split; [reflexivity|]. simpl. rewrite lookup_insert_ne by done.
  split; [exact Hl1|]. unfold downs_of in *. rewrite !omap_app. simpl.
  rewrite !app_nil_r. by rewrite Hd1.
Qed.

Lemma max_batch_lt (rows : list MigrationRecord) (c : Z) :
  0 < c -> Forall (fun r => mr_batch r < c) rows -> max_batch rows < c.
Proof.
  intros Hc Hl. destruct rows as [|r rows]; [done|].
  apply Forall_cons in Hl as [Hr Hl]. unfold max_batch. simpl.
  apply fold_max_lt; [done|]. by apply List.Forall_map.
Qed.

Lemma max_batch_ge (rows : list MigrationRecord) :
  Forall (fun r => mr_batch r <= max_batch rows) rows.
Proof.
  destruct rows as [|r rows]; [constructor|].
  unfold max_batch. simpl.
  destruct (sql_max_ge (map mr_batch rows) (mr_batch r) _ eq_refl) as [H1 H2].
  constructor; [done|]. exact (proj1 (List.Forall_map _ _ _) H2).
Qed.

(** X16: in the normal course of a rollback (batch numbers below [2 ^ 53],
    target names plain between single quotes), when every row of the
    current batch has its script in the catalog, the ledger is left with
    exactly the rows of the other batches, and its highest batch number is
    strictly lower than before. *)
Theorem rollback_lowers_the_current_batch
    (this : BQMigration) (w : World) (lockRows : list LockRecord)
    (rows : list MigrationRecord) (entries : list string) :
  let now := CURRENT_DATETIME (timezone this) w in
  let expiry := migrationLockExpirationTime this in
  let locked := sql_update (lock_where now expiry) (lock_set now) lockRows in
  faults w = [] ->
  tables w !! lock_id this = Some (LockTable lockRows) ->
  sql_count (lock_where now expiry) lockRows <> 0 ->
  tables w !! ledger_id this = Some (LedgerTable rows) ->
  Forall (fun r => 0 < mr_batch r < 2 ^ 53) rows ->
  dirs w !! migrationsDir this = Some entries ->
  forallb plain_literal (map path_parse_name (rollback_targets rows entries)) = true ->
  is_Some (downs_dry_run this (modules w) (rollback_targets rows entries)
             (<[lock_id this := LockTable locked]> (tables w))) ->
  (forall r, In r rows -> mr_batch r = current_batch rows ->
             exists f, In f (catalog entries) /\ path_parse_name f = mr_name r) ->
  rows <> [] ->
  exists w' rows',
    rollbackMigrations this w = (Ok tt, w')
    /\ tables w' !! ledger_id this = Some (LedgerTable rows')
    /\ rows' = List.filter (fun r => negb (mr_batch r =? current_batch rows)) rows
    /\ Forall (fun r => 0 < mr_batch r < 2 ^ 53) rows'
    /\ current_batch rows = max_batch rows
    /\ current_batch rows' = max_batch rows'
    /\ current_batch rows' < current_batch rows.
Proof.
  intros now expiry locked Hf Hlock Hacq Hledger Hpos Hdir Hplain Hdry Hcat Hne.
  destruct (rollback_ledger_after this w lockRows rows entries Hf Hlock Hacq Hledger Hpos
              Hdir Hplain Hdry) as (w' & Hrun & Hl & _).
  exists w', (List.filter (fun r => negb (mr_batch r =? current_batch rows)) rows).
  assert (Forall (fun r => 0 < mr_batch r < 2 ^ 53)
            (List.filter (fun r => negb (mr_batch r =? current_batch rows)) rows)) as Hpos'.
  { rewrite List.Forall_forall in *. intros r Hr. apply filter_In in Hr as [Hr _]. auto. }
  split; [done|]. split; [|split; [done|split; [done|split; [|split]]]].
  - rewrite Hl. f_equal. f_equal. apply filter_ext_in. intros r Hr.
    unfold delete_where. destruct (mr_batch r =? current_batch rows) eqn:Hb;
      [|by rewrite andb_false_r].
    apply Z.eqb_eq in Hb. destruct (Hcat r Hr Hb) as (f & Hf1 & Hf2).
    rewrite andb_true_r. f_equal. unfold name_in. apply existsb_exists.
    exists (path_parse_name f). split; [|by rewrite Hf2, String.eqb_refl].
    apply in_map. unfold rollback_targets. apply filter_In. split; [done|].
    unfold in_batch. apply existsb_exists. exists r. split; [done|].
    by rewrite Hf2, String.eqb_refl, Hb, Z.eqb_refl.
  - by apply current_batch_exact.
  - by apply current_batch_exact.
  - rewrite (current_batch_exact _ Hpos'). rewrite (current_batch_exact rows Hpos) in *.
    apply max_batch_lt; [by apply max_batch_bounds|].
    pose proof (max_batch_ge rows) as Hge.
    rewrite List.Forall_forall in *. intros r Hr. apply filter_In in Hr as [Hr Hb].
    apply negb_true_iff, Z.eqb_neq in Hb. specialize (Hge r Hr). lia.
Qed.

Lemma rollback_lowers_the_current_batch_witness :
  exists w' rows',
    rollbackMigrations bqMigration example_rollback_world = (Ok tt, w')
    /\ tables w' !! ledger_id bqMigration = Some (LedgerTable rows')
    /\ current_batch rows'
       < current_batch [mkMigration "001_init" 1 900; mkMigration "002_person" 2 950].
Proof.
  destruct (rollback_lowers_the_current_batch bqMigration example_rollback_world
              [mkLock false 0]
              [mkMigration "001_init" 1 900; mkMigration "002_person" 2 950]
              ["002_person.js"; "001_init.js"])
    as (w' & rows' & Hrun & Hl & _ & _ & _ & _ & Hlt).
  - reflexivity.
  - reflexivity.
  - vm_compute. discriminate.
  - reflexivity.
  - repeat constructor.
  - reflexivity.
  - reflexivity.
  - apply (bool_decide_unpack _). vm_compute. exact I.
  - intros r [<- | [<- | []]]; vm_compute; intros Hb; try discriminate.
    exists "002_person.js". split; [right; by left|reflexivity].
  - discriminate.
  - exists w', rows'. split; [exact Hrun|]. split; [exact Hl|exact Hlt].
Defined.

Lemma run_locked_runs_pending_records_nothing_witness :
  exists w',
    run_locked bqMigration
      (example_world [mkLock false 0] [] ["002_person.js"; "001_init.js"] [])
    = (Throw (ReferenceError "bigquery"), w')
    /\ ups_of (trace w') = ["001_init.js"; "002_person.js"]
    /\ tables w' !! ledger_id bqMigration = Some (LedgerTable []).
Proof.
  destruct (run_locked_runs_pending_records_nothing bqMigration
              (example_world [mkLock false 0] [] ["002_person.js"; "001_init.js"] [])
              [mkLock false 0] [] ["002_person.js"; "001_init.js"])
    as (w' & Hrun & Hups & _ & Hl).
  - reflexivity.
  - reflexivity.
  - vm_compute. discriminate.
  - reflexivity.
  - reflexivity.
  - apply (bool_decide_unpack _). vm_compute. exact I.
  - exists w'. split; [exact Hrun|]. split; [exact Hups|exact Hl].
Defined.

(* ===================================================================== *)
(** ** A dataset without a lock table *)
(* ===================================================================== *)

Lemma createMigrationLockTable_throws_at_once (this : BQMigration) (w : World) :
  createMigrationLockTable this w = (Throw (ReferenceError "bigquery"), w).
Proof. reflexivity. Qed.

Lemma unlockMigration_without_lock_table (this : BQMigration) (w : World) :
  faults w = [] ->
  (forall rows, tables w !! lock_id this <> Some (LockTable rows)) ->
  unlockMigration this w =
  (Throw (ApiError (CQueryJob (UpdateUnlock (lock_id this)))),
   with_trace (trace w ++ [EvCall (CQueryJob (UpdateUnlock (lock_id this)))]) w).
Proof.
  intros Hf Hn. unfold unlockMigration, bind, createQueryJob. rewrite api_no_fault by done.
  unfold exec_stmt. simpl.
  destruct (tables w !! lock_id this) as [[rows|rows|sc]|] eqn:Hl; try done.
  by destruct (Hn rows).
Qed.

Lemma lockMigration_without_lock_table (this : BQMigration) (w : World) :
  faults w = [] ->
  (forall rows, tables w !! lock_id this <> Some (LockTable rows)) ->
  lockMigration this w =
  (Throw (ApiError (CQueryJob (lock_stmt this))),
   with_trace (trace w ++ [EvCall (CQueryJob (lock_stmt this))]) w).
Proof.
  intros Hf Hn. unfold lockMigration, bind, createQueryJob. rewrite api_no_fault by done.
  unfold exec_stmt. simpl.
  destruct (tables w !! lock_id this) as [[rows|rows|sc]|] eqn:Hl; try done.
  by destruct (Hn rows).
Qed.

(** X17: on a dataset without a lock table and with a working client,
    [runMigrations] logs its reference error, may create the migration
    table, never creates the lock table, and rejects with the error of the
    unlock job; [rollbackMigrations] logs the error of the lock job, changes
    nothing and rejects in the same way. *)
Theorem no_lock_table_is_ever_created (this : BQMigration) (w : World) :
  faults w = [] ->
  tables w !! lock_id this = None ->
  (exists w',
     runMigrations this w =
       (Throw (ApiError (CQueryJob (UpdateUnlock (lock_id this)))), w')
     /\ errors_of (trace w') =
        errors_of (trace w) ++ [("Error running migrations:", ReferenceError "bigquery")]
     /\ ledger_added this (tables w) (tables w')
     /\ is_Some (tables w' !! ledger_id this)
     /\ forall rows, tables w' !! lock_id this <> Some (LockTable rows))
  /\
  (exists w',
     rollbackMigrations this w =
       (Throw (ApiError (CQueryJob (UpdateUnlock (lock_id this)))), w')
     /\ errors_of (trace w') =
        errors_of (trace w)
        ++ [("Error rolling back:", ApiError (CQueryJob (lock_stmt this)))]
     /\ tables w' = tables w).
Proof.
  intros Hf Hn. split.
  - rewrite runMigrations_unfold. unfold run_try. unfold bind at 1.
    rewrite (createMigrationTable_run this w Hf).
    destruct (tables w !! ledger_id this) as [T|] eqn:Hl.
    + unfold bind, logged. rewrite createMigrationLockTable_throws_at_once.
      rewrite unlockMigration_without_lock_table;
        [|done|simpl; intros rows; by rewrite Hn].
      eexists. split; [reflexivity|]. simpl.
      unfold errors_of. rewrite !omap_app. simpl. rewrite !app_nil_r.
      split; [done|]. split; [by left|]. split; [by rewrite Hl|].
      intros rows. by rewrite Hn.
    + unfold bind, logged. rewrite createMigrationLockTable_throws_at_once.
      assert (forall rows,
                <[ledger_id this := LedgerTable []]> (tables w) !! lock_id this
                <> Some (LockTable rows)) as Hnl.
      { intros rows. destruct (decide (ledger_id this = lock_id this)) as [E|E].
        - rewrite <- E, lookup_insert_eq. discriminate.
        - rewrite lookup_insert_ne by done. by rewrite Hn. }
      rewrite unlockMigration_without_lock_table; [|done|exact Hnl].
      eexists. split; [reflexivity|]. simpl.
      unfold errors_of. rewrite !omap_app. simpl. rewrite !app_nil_r.
      split; [done|]. split; [by right|]. split; [by rewrite lookup_insert_eq|exact Hnl].
  - rewrite rollbackMigrations_unfold. unfold rollback_try. unfold bind at 1.
    rewrite lockMigration_without_lock_table; [|done|intros rows; by rewrite Hn].
    unfold logged.
    rewrite unlockMigration_without_lock_table; [|done|simpl; intros rows; by rewrite Hn].
    eexists. split; [reflexivity|]. simpl.
    unfold errors_of. rewrite !omap_app. simpl. rewrite !app_nil_r. done.
Qed.

Lemma no_lock_table_is_ever_created_witness :
  (exists w',
     runMigrations bqMigration (mkWorld ∅ ∅ ∅ 1000 (fun _ => 0) [] [] (fun _ _ => None)) =
       (Throw (ApiError (CQueryJob (UpdateUnlock (lock_id bqMigration)))), w')
     /\ is_Some (tables w' !! ledger_id bqMigration)
     /\ forall rows, tables w' !! lock_id bqMigration <> Some (LockTable rows)).
Proof.
  destruct (no_lock_table_is_ever_created bqMigration
              (mkWorld ∅ ∅ ∅ 1000 (fun _ => 0) [] [] (fun _ _ => None)) eq_refl (lookup_empty _))
    as [(w' & Hrun & _ & _ & Hl & Hk) _].
  exists w'. split; [exact Hrun|]. split; [exact Hl|exact Hk].
Defined.

(* ===================================================================== *)
(** ** A batch number that is not a double *)
(* ===================================================================== *)

Lemma no_row_of_batch (rows : list MigrationRecord) (seen : Z) :
  Forall (fun r => mr_batch r <> seen) rows ->
  List.filter (batch_where (Some seen)) rows = [].
Proof.
  intros Hno. apply filter_none. intros r Hr. simpl. apply Z.eqb_neq.
  rewrite List.Forall_forall in Hno. apply Hno. by apply list_elem_of_In.
Qed.

(** X19: the current batch is read as a double and pasted as its text. When
    no row of the ledger carries the number that this text denotes, as with
    a highest batch of [2 ^ 53 + 1], the rollback finds nothing to revert:
    it asks for the names of the batch it has read, calls no [down], sends
    no statement that writes, leaves the ledger as it is, releases the lock
    and resolves. *)
Theorem rollback_misreads_a_large_batch
    (this : BQMigration) (w : World) (lockRows : list LockRecord)
    (rows : list MigrationRecord) (entries : list string) (seen : Z) :
  let now := CURRENT_DATETIME (timezone this) w in
  let expiry := migrationLockExpirationTime this in
  let locked := sql_update (lock_where now expiry) (lock_set now) lockRows in
  faults w = [] ->
  tables w !! lock_id this = Some (LockTable lockRows) ->
  sql_count (lock_where now expiry) lockRows <> 0 ->
  tables w !! ledger_id this = Some (LedgerTable rows) ->
  Forall (fun r => - 2 ^ 63 <= mr_batch r < 2 ^ 63) rows ->
  dirs w !! migrationsDir this = Some entries ->
  batch_clause (Some (current_batch rows)) = Some seen ->
  - 2 ^ 63 <= seen < 2 ^ 63 ->
  Forall (fun r => mr_batch r <> seen) rows ->
  exists w',
    rollbackMigrations this w = (Ok tt, w')
    /\ downs_of (trace w') = downs_of (trace w)
    /\ calls_of (trace w') =
       calls_of (trace w) ++
       [CQueryJob (lock_stmt this); CGetMetadata (lock_stmt this);
        CQuery (SelectMaxBatch (ledger_id this));
        CQuery (SelectNames (ledger_id this) (Some seen));
        CQueryJob (UpdateUnlock (lock_id this)); CGetMetadata (UpdateUnlock (lock_id this))]
    /\ In (EvInfo "Nothing to rollback.") (trace w')
    /\ tables w' !! ledger_id this = Some (LedgerTable rows)
    /\ tables w' !! lock_id this = Some (LockTable (sql_update unlock_where unlock_set locked)).
Proof.
  intros now expiry locked Hf Hlock Hacq Hledger _ Hdir Hseen _ Hno.
  assert (lock_id this <> ledger_id this) as Hne.
  { intros Heq. rewrite Heq, Hledger in Hlock. discriminate. }
  pose proof (rollback_try_to_loop this w lockRows rows entries Hf Hlock Hacq Hledger Hdir)
    as Htry.
  rewrite Hseen, (no_row_of_batch rows seen Hno) in Htry. simpl map in Htry.
  unfold bind at 1 in Htry.
  assert (List.filter (fun f => includes [] (path_parse_name f)) (catalog entries) = [])
    as Hnone by (by apply filter_none).
  rewrite (rollback_loop_run this [] (catalog entries) []
             (rollback_loop_world this w lockRows rows)
             (tables (rollback_loop_world this w lockRows rows))) in Htry
    by (by rewrite Hnone).
  rewrite Hnone in Htry. unfold rollback_loop_world in Htry. rewrite Hseen in Htry.
  cbn [app map down_events flat_map rollback_record length Nat.eqb] in Htry.
  rewrite rollbackMigrations_unfold, Htry. unfold logged.
  match goal with |- context [unlockMigration this ?W] => set (we := W) end.
  assert (tables we !! lock_id this = Some (LockTable locked)) as Hle
    by (simpl; apply lookup_insert_eq).
  pose proof (unlockMigration_run this we locked Hf Hle) as Hun. cbv zeta in Hun.
  pose proof (sql_count_lock_then_unlock now expiry lockRows Hacq) as Hcnt. fold locked in Hcnt.
  rewrite (proj2 (Z.eqb_neq _ _) Hcnt) in Hun. rewrite Hun. clear Hun.
  eexists. split; [reflexivity|]. simpl.
  unfold downs_of, calls_of. rewrite !omap_app. simpl. rewrite !app_nil_r.
  split; [done|]. split; [by rewrite <- !app_assoc|].
  split; [rewrite !in_app_iff; simpl; tauto|].
  rewrite !lookup_insert_ne by done. rewrite lookup_insert_eq. done.
Qed.

Lemma rollback_misreads_a_large_batch_witness :
  exists w',
    rollbackMigrations bqMigration
      (example_world [mkLock false 0] [mkMigration "001_init" 9007199254740993 900]
         ["001_init.js"] [])
    = (Ok tt, w')
    /\ downs_of (trace w') = []
    /\ tables w' !! ledger_id bqMigration
       = Some (LedgerTable [mkMigration "001_init" 9007199254740993 900]).
Proof.
  destruct (rollback_misreads_a_large_batch bqMigration
              (example_world [mkLock false 0] [mkMigration "001_init" 9007199254740993 900]
                 ["001_init.js"] [])
              [mkLock false 0] [mkMigration "001_init" 9007199254740993 900]
              ["001_init.js"] 9007199254740992)
    as (w' & Hrun & Hdowns & _ & _ & Hledger & _).
  - reflexivity.
  - reflexivity.
  - vm_compute. discriminate.
  - reflexivity.
  - repeat constructor; vm_compute; discriminate.
  - reflexivity.
  - vm_compute. reflexivity.
  - split; vm_compute; [discriminate|reflexivity].
  - repeat constructor. discriminate.
  - exists w'. split; [exact Hrun|]. split; [exact Hdowns|exact Hledger].
Defined.

(* ===================================================================== *)
(** ** A name that is not plain between quotes *)
(* ===================================================================== *)

Lemma bq_query_refused (c : Client) (s : Stmt) (w : World) :
  faults w = [] -> exec_stmt s w = None ->
  bq_query c s w =
  (Throw (ApiError (CQuery s)), with_trace (trace w ++ [EvCall (CQuery s)]) w).
Proof.
  intros Hf He. unfold bq_query. rewrite api_no_fault by done.
  change (exec_stmt s (with_trace (trace w ++ [EvCall (CQuery s)]) w)) with (exec_stmt s w).
  by rewrite He.
Qed.

(** X20: the names of the reverted scripts are pasted between single quotes
    as they are. When one of them holds a quote, a backslash or a line
    break, the text sent is no longer the delete of these names; if the
    warehouse refuses it, the rollback has run every [down] of the batch and
    deleted nothing: the error is logged, the reverted scripts stay
    recorded, the lock is released and the call resolves. *)
Theorem rollback_with_a_quoted_name
    (this : BQMigration) (w : World) (lockRows : list LockRecord)
    (rows : list MigrationRecord) (entries : list string) :
  let now := CURRENT_DATETIME (timezone this) w in
  let expiry := migrationLockExpirationTime this in
  let locked := sql_update (lock_where now expiry) (lock_set now) lockRows in
  let targets := rollback_targets rows entries in
  let executed := map path_parse_name targets in
  let text := delete_text this executed (current_batch rows) in
  faults w = [] ->
  tables w !! lock_id this = Some (LockTable lockRows) ->
  sql_count (lock_where now expiry) lockRows <> 0 ->
  tables w !! ledger_id this = Some (LedgerTable rows) ->
  Forall (fun r => 0 < mr_batch r < 2 ^ 53) rows ->
  dirs w !! migrationsDir this = Some entries ->
  forallb plain_literal executed = false ->
  is_Some (downs_dry_run this (modules w) targets
             (<[lock_id this := LockTable locked]> (tables w))) ->
  (forall t : Tables, other_sql w text t = None) ->
  exists w',
    rollbackMigrations this w = (Ok tt, w')
    /\ downs_of (trace w') = downs_of (trace w) ++ targets
    /\ errors_of (trace w') =
       errors_of (trace w)
       ++ [("Error rolling back:", ApiError (CQuery (SqlText (ledger_id this) text)))]
    /\ tables w' !! ledger_id this = Some (LedgerTable rows)
    /\ tables w' !! lock_id this = Some (LockTable (sql_update unlock_where unlock_set locked)).
Proof.
  intros now expiry locked targets executed text Hf Hlock Hacq Hledger Hpos Hdir Hquote
    [t2 Hdry] Hrefuse.
  assert (lock_id this <> ledger_id this) as Hne.
  { intros Heq. rewrite Heq, Hledger in Hlock. discriminate. }
  destruct (downs_dry_run_bookkeeping _ _ _ _ _ Hdry) as [Hb1 Hb2].
  rewrite lookup_insert_ne in Hb1 by done. rewrite lookup_insert_eq in Hb2.
  rewrite Hledger in Hb1.
  pose proof (rollback_try_to_loop this w lockRows rows entries Hf Hlock Hacq Hledger Hdir)
    as Htry.
  unfold bind at 1 in Htry.
  rewrite (rollback_loop_run this _ (catalog entries) []
             (rollback_loop_world this w lockRows rows) t2) in Htry
    by (rewrite rollback_targets_filter by done; exact Hdry).
  rewrite rollback_targets_filter in Htry by done. simpl app in Htry.
  fold targets executed in Htry.
  match type of Htry with context [rollback_record _ _ _ ?W] => set (we := W) in Htry end.
  assert (faults we = []) as Hfe by exact Hf.
  assert (tables we = t2) as Hte by reflexivity.
  assert (other_sql we = other_sql w) as Hoe by reflexivity.
  assert (downs_of (trace we) = downs_of (trace w) ++ targets) as Hde.
  { simpl. unfold downs_of. rewrite !omap_app. simpl. rewrite !app_nil_r.
    f_equal. apply downs_of_down_events. }
  assert (errors_of (trace we) = errors_of (trace w)) as Hee.
  { simpl. unfold errors_of. rewrite !omap_app. simpl.
    fold (errors_of (down_events this targets)).
    by rewrite errors_of_down_events, !app_nil_r. }
  clearbody we.
  assert (executed <> []) as Hsome by (intros E; by rewrite E in Hquote).
  assert (rollback_try this w =
          (Throw (ApiError (CQuery (SqlText (ledger_id this) text))),
           with_trace (trace we ++ [EvCall (CQuery (SqlText (ledger_id this) text))]) we))
    as Htry1.
  { rewrite Htry. unfold rollback_record.
    destruct executed as [|n ns] eqn:Hex; [done|]. cbn [length Nat.eqb].
    unfold bind, delete_stmt. rewrite Hquote. fold text.
    rewrite bq_query_refused; [done|done|].
    unfold exec_stmt. cbn [stmt_table]. rewrite Hoe.
    destruct (tables we !! ledger_id this) as [[?|?|?]|]; apply Hrefuse. }
  rewrite rollbackMigrations_unfold, Htry1. unfold logged.
  match goal with |- context [unlockMigration this ?W] => set (wf := W) end.
  assert (tables wf !! lock_id this = Some (LockTable locked)) as Hlf
    by (simpl; by rewrite Hte).
  pose proof (unlockMigration_run this wf locked Hfe Hlf) as Hun. cbv zeta in Hun.
  pose proof (sql_count_lock_then_unlock now expiry lockRows Hacq) as Hcnt. fold locked in Hcnt.
  rewrite (proj2 (Z.eqb_neq _ _) Hcnt) in Hun. rewrite Hun. clear Hun.
  eexists. split; [reflexivity|]. simpl.
  unfold downs_of, errors_of in *. rewrite !omap_app. simpl. rewrite !app_nil_r.
  split; [exact Hde|]. split; [by rewrite Hee|].
  rewrite lookup_insert_ne by done. rewrite lookup_insert_eq, Hte. done.
Qed.

Lemma rollback_with_a_quoted_name_witness :
  exists w',
    rollbackMigrations bqMigration example_quote_world = (Ok tt, w')
    /\ downs_of (trace w') = ["001_don't.js"]
    /\ tables w' !! ledger_id bqMigration
       = Some (LedgerTable [mkMigration "001_don't" 1 900]).
Proof.
  destruct (rollback_with_a_quoted_name bqMigration example_quote_world
              [mkLock false 0] [mkMigration "001_don't" 1 900] ["001_don't.js"])
    as (w' & Hrun & Hdowns & _ & Hledger & _).
  - reflexivity.
  - reflexivity.
  - vm_compute. discriminate.
  - reflexivity.
  - repeat constructor.
  - reflexivity.
  - reflexivity.
  - apply (bool_decide_unpack _). vm_compute. exact I.
  - reflexivity.
  - exists w'. split; [exact Hrun|]. split; [exact Hdowns|exact Hledger].
Defined.
